(** * football-transfer-spy: club scraper and badge matcher

    A shallow embedding of the two core scripts of the repository,
    [_create_logo_assignment.py] (Text Normalizer and Fuzzy Entity Matcher)
    and [_generate_clubs.py] (Alias Generator, the three extractors and the
    Scraping Pipeline), together with the properties their specification
    states about them.

    Conventions.
    - A Python [str] is a list of Unicode code points ([list N]); [lit]
      turns an ASCII literal into such a list.
    - A Python [set] or [dict] is a [gset] or [gmap] of stdpp.
    - Code that may raise returns a [result]; [try]/[except] is [catch].
    - [print] appends a line to the output of the run. A standard output
      whose encoding lacks a character of the line refuses it and [print]
      raises; the definitions named [_console] take this into account
      through [encode_failure], the others are the same code on a standard
      output that accepts every line.
    - Library routines whose tables are not part of the repository (NFKD
      decomposition, Unicode case folding and character classes, URL
      joining, the network) are parameters of the sections that use them. *)

From Stdlib Require Import ZArith NArith Ascii String DecimalString.
From stdpp Require Import gmap list sorting.

Set Warnings "-register-all".
Set Default Proof Using "Type".

Local Open Scope N_scope.

(** ** Python strings *)

Module Py.

Abbreviation str := (list N).

Definition lit (s : string) : str :=
  (λ a, N_of_ascii a) <$> list_ascii_of_string s.

Definition is_ascii (c : N) : bool := c <? 128.
Definition is_upper (c : N) : bool := (65 <=? c) && (c <=? 90).
Definition is_lower (c : N) : bool := (97 <=? c) && (c <=? 122).
Definition is_digit (c : N) : bool := (48 <=? c) && (c <=? 57).
Definition underscore : N := 95.

(** [str.isspace] for one code point; on ASCII text this is also the class
    [\s] of [re]. *)
Definition isspace (c : N) : bool :=
  ((9 <=? c) && (c <=? 13)) || ((28 <=? c) && (c <=? 32))
  || (c =? 0x85) || (c =? 0xA0) || (c =? 0x1680)
  || ((0x2000 <=? c) && (c <=? 0x200A))
  || (c =? 0x2028) || (c =? 0x2029) || (c =? 0x202F)
  || (c =? 0x205F) || (c =? 0x3000).

(** The class [\w] of [re] on ASCII text: [[a-zA-Z0-9_]]. *)
Definition ascii_word (c : N) : bool :=
  is_upper c || is_lower c || is_digit c || (c =? underscore).

(** [str.lower] on ASCII text. *)
Definition ascii_lower_char (c : N) : N := if is_upper c then c + 32 else c.
Definition ascii_lower (s : str) : str := ascii_lower_char <$> s.

(** [s.encode("ascii", "ignore").decode("ascii")] *)
Definition encode_ascii_ignore (s : str) : str := List.filter is_ascii s.

(** [re.sub(cls+, rep, s)]: every maximal run of characters of the class
    becomes one [rep]. *)
Fixpoint sub_runs (cls : N → bool) (rep : str) (in_run : bool) (s : str) : str :=
  match s with
  | [] => []
  | c :: rest =>
      if cls c then
        (if in_run then [] else rep) ++ sub_runs cls rep true rest
      else c :: sub_runs cls rep false rest
  end.

Fixpoint lstrip_by (p : N → bool) (s : str) : str :=
  match s with
  | [] => []
  | c :: rest => if p c then lstrip_by p rest else s
  end.

Fixpoint rstrip_by (p : N → bool) (s : str) : str :=
  match s with
  | [] => []
  | c :: rest =>
      match rstrip_by p rest with
      | [] => if p c then [] else [c]
      | r => c :: r
      end
  end.

(** [s.strip(chars)] with [p] the membership test of [chars];
    [s.strip()] is [strip_by isspace]. *)
Definition strip_by (p : N → bool) (s : str) : str := rstrip_by p (lstrip_by p s).
Definition strip (s : str) : str := strip_by isspace s.

(** [s.split(sep)] for a one-character separator. *)
Fixpoint split_on (sep : N) (s : str) : list str :=
  match s with
  | [] => [[]]
  | c :: rest =>
      if c =? sep then [] :: split_on sep rest
      else match split_on sep rest with
           | [] => [[c]]
           | w :: ws => (c :: w) :: ws
           end
  end.

(** [sep.join(parts)] *)
Fixpoint join (sep : str) (parts : list str) : str :=
  match parts with
  | [] => []
  | [p] => p
  | p :: ps => p ++ sep ++ join sep ps
  end.

Fixpoint startswith (pre s : str) : bool :=
  match pre, s with
  | [], _ => true
  | _ :: _, [] => false
  | a :: pre', b :: s' => (a =? b) && startswith pre' s'
  end.

(** [needle in hay] *)
Fixpoint contains (needle hay : str) : bool :=
  startswith needle hay ||
  match hay with
  | [] => false
  | _ :: hay' => contains needle hay'
  end.

(** [s.replace(old, new)] for a non-empty [old]: leftmost, non-overlapping
    occurrences; [skip] counts the characters of a match still to drop. *)
Fixpoint replace_from (old new : str) (skip : nat) (s : str) : str :=
  match s with
  | [] => []
  | c :: rest =>
      match skip with
      | S k => replace_from old new k rest
      | O =>
          if startswith old s then new ++ replace_from old new (length old - 1) rest
          else c :: replace_from old new 0 rest
      end
  end.

Definition replace (old new s : str) : str := replace_from old new 0 s.

(** Python truthiness of a string. *)
Definition nonempty (s : str) : bool := match s with [] => false | _ => true end.

End Py.

Import Py.

(** ** Exceptions *)

Inductive exn :=
| HTTPError (msg : str)
| RequestError (msg : str)
| TypeError
| ValueError
| UnicodeEncodeError (msg : str).

Definition exn_message (e : exn) : str :=
  match e with
  | HTTPError msg | RequestError msg | UnicodeEncodeError msg => msg
  | TypeError => lit "TypeError"
  | ValueError => lit "ValueError"
  end.

Inductive result (A : Type) :=
| Ok (a : A)
| Raise (e : exn).
Arguments Ok {A} a.
Arguments Raise {A} e.

Definition bind {A B} (r : result A) (k : A → result B) : result B :=
  match r with
  | Ok a => k a
  | Raise e => Raise e
  end.

(** [try: body except Exception as e: handler(e)] *)
Definition catch {A} (body : result A) (handler : exn → result A) : result A :=
  match body with
  | Ok a => Ok a
  | Raise e => handler e
  end.

#[global] Instance result_ret : MRet result := λ A a, Ok a.
#[global] Instance result_bind : MBind result := λ A B k r, bind r k.
#[global] Instance result_fmap : FMap result := λ A B f r, bind r (λ a, Ok (f a)).

(** ** Floating-point values

    A Python [float] is written as a decimal numeral, [m * 10^e], or as one
    of the special values. The float meant is the binary64 value nearest
    to the numeral, ties to even, with the sign of [m]: [float] keeps the
    numeral it reads, and [round] and the comparisons work on the binary64
    value, which [binary64_of_decimal] computes exactly. [PyNegZero] is the
    numeral [-0], the float [-0.0]. *)

Inductive pyfloat :=
| PyFinite (m e : Z)
| PyInf (neg : bool)
| PyNaN
| PyNegZero.

(** The integer nearest to [m / p] for [p > 0], ties to even. *)
Definition round_half_even (m p : Z) : Z :=
  let q := (m / p)%Z in
  let r := (m mod p)%Z in
  if (2 * r <? p)%Z then q
  else if (p <? 2 * r)%Z then (q + 1)%Z
  else if Z.even q then q else (q + 1)%Z.

(** [floor (log2 (n / d))] for positive [n] and [d]. *)
Definition log2_floor_ratio (n d : Z) : Z :=
  let guess := (Z.log2 n - Z.log2 d)%Z in
  if (d * 2 ^ Z.max guess 0 <=? n * 2 ^ Z.max (- guess) 0)%Z then guess
  else (guess - 1)%Z.

(** The binary64 value nearest to [n / d] for positive [n] and [d], as
    [(M, q)] for [M * 2^q]: 53 significant bits, the exponent of the last
    bit not below -1074 (subnormal numbers), ties to even; [None] when the
    value is beyond the largest finite float (the float is an infinity). *)
Definition nearest_binary64 (n d : Z) : option (Z * Z) :=
  let q := Z.max (log2_floor_ratio n d - 52) (-1074) in
  let M := round_half_even (n * 2 ^ Z.max (- q) 0) (d * 2 ^ Z.max q 0) in
  if (0 <? q)%Z && (1024 <=? Z.log2 M + q)%Z then None else Some (M, q).

(** The binary64 value of the numeral [m * 10^e], with a signed [M]. *)
Definition binary64_of_decimal (m e : Z) : option (Z * Z) :=
  if (m =? 0)%Z then Some (0%Z, 0%Z)
  else
    match nearest_binary64 (Z.abs m * 10 ^ Z.max e 0) (10 ^ Z.max (- e) 0) with
    | Some (M, q) => Some ((Z.sgn m * M)%Z, q)
    | None => None
    end.

(** [round(x, ndigits)] for [ndigits >= 0]: the binary64 value of [x] is
    rounded to [ndigits] decimals, ties to even, and the result is the
    float written by that decimal, a negative [x] that rounds to zero
    giving [-0.0]; zeros, infinities, [nan] and any [x] when [ndigits]
    exceeds 323 are returned as they are. *)
Definition py_round (x : pyfloat) (ndigits : N) : pyfloat :=
  match x with
  | PyFinite m e =>
      if 323 <? ndigits then x
      else
        match binary64_of_decimal m e with
        | Some (M, q) =>
            let k := round_half_even (M * 10 ^ Z.of_N ndigits * 2 ^ Z.max q 0)
                                     (2 ^ Z.max (- q) 0) in
            if (k =? 0)%Z && (m <? 0)%Z then PyNegZero
            else PyFinite k (- Z.of_N ndigits)
        | None => x
        end
  | _ => x
  end.

(** [lo <= x <= hi] for integers [lo], [hi], on the binary64 value of [x];
    false on [nan] and infinities. *)
Definition in_interval (lo hi : Z) (x : pyfloat) : bool :=
  match x with
  | PyFinite m e =>
      match binary64_of_decimal m e with
      | Some (M, q) =>
          (lo * 2 ^ Z.max (- q) 0 <=? M * 2 ^ Z.max q 0)%Z
          && (M * 2 ^ Z.max q 0 <=? hi * 2 ^ Z.max (- q) 0)%Z
      | None => false
      end
  | PyNegZero => (lo <=? 0)%Z && (0 <=? hi)%Z
  | _ => false
  end.

(** [x == 0] *)
Definition float_is_zero (x : pyfloat) : bool :=
  match x with
  | PyFinite m e =>
      match binary64_of_decimal m e with
      | Some (M, _) => (M =? 0)%Z
      | None => false
      end
  | PyNegZero => true
  | _ => false
  end.

Fixpoint span (p : N → bool) (s : str) : str * str :=
  match s with
  | [] => ([], [])
  | c :: rest =>
      if p c then let '(a, b) := span p rest in (c :: a, b) else ([], s)
  end.

Definition digits_value (ds : str) : Z :=
  fold_left (λ acc c, (10 * acc + Z.of_N (c - 48))%Z) ds 0%Z.

(** Underscores in a numeric literal: only between two digits. *)
Fixpoint drop_underscores (prev : N) (s : str) : option str :=
  match s with
  | [] => if prev =? underscore then None else Some []
  | c :: rest =>
      if c =? underscore then
        if is_digit prev then drop_underscores c rest else None
      else if (prev =? underscore) && negb (is_digit c) then None
      else cons c <$> drop_underscores c rest
  end.

(** The exponent part [e[+-]digits]; without a digit it is not consumed. *)
Definition parse_exponent (s : str) : Z * str :=
  match s with
  | c :: r =>
      if (c =? 101) || (c =? 69) then
        let '(neg, r') :=
          match r with
          | 45 :: t => (true, t)
          | 43 :: t => (false, t)
          | _ => (false, r)
          end in
        let '(ds, rest) := span is_digit r' in
        match ds with
        | [] => (0%Z, s)
        | _ => ((if neg then - digits_value ds else digits_value ds)%Z, rest)
        end
      else (0%Z, s)
  | [] => (0%Z, [])
  end.

(** [[+-]?(inf|infinity|nan)] or [[+-]?(digits[.digits]|.digits)(e[+-]?digits)?]
    over the whole string. *)
Definition parse_float_ascii (s : str) : option pyfloat :=
  let '(neg, s) :=
    match s with
    | 45 :: r => (true, r)
    | 43 :: r => (false, r)
    | _ => (false, s)
    end in
  let low := ascii_lower s in
  if bool_decide (low = lit "inf") || bool_decide (low = lit "infinity")
  then Some (PyInf neg)
  else if bool_decide (low = lit "nan") then Some PyNaN
  else
    let '(ip, s1) := span is_digit s in
    let '(fp, s2) :=
      match s1 with
      | 46 :: r => span is_digit r
      | _ => ([], s1)
      end in
    match ip ++ fp with
    | [] => None
    | ds =>
        let '(ex, s3) := parse_exponent s2 in
        match s3 with
        | [] =>
            let m := digits_value ds in
            Some (if neg && (m =? 0)%Z then PyNegZero
                  else PyFinite (if neg then - m else m)%Z
                                (ex - Z.of_nat (length fp))%Z)
        | _ => None
        end
    end.

Definition float_isspace (c : N) : bool := ((9 <=? c) && (c <=? 13)) || (c =? 32).

(** ** JSON values, as [json.loads] returns them *)

Inductive json :=
| JNull
| JBool (b : bool)
| JInt (z : Z)
| JFloat (x : pyfloat)
| JStr (s : str)
| JArr (items : list json)
| JObj (fields : list (str * json)).

(** Python truthiness: [None], [False], zero and empty containers are false. *)
Definition truthy (v : json) : bool :=
  match v with
  | JNull => false
  | JBool b => b
  | JInt z => negb (z =? 0)%Z
  | JFloat x => negb (float_is_zero x)
  | JStr s => nonempty s
  | JArr items => match items with [] => false | _ => true end
  | JObj fields => match fields with [] => false | _ => true end
  end.

(** A club entry of [clubs.json]: a dict from field name to value. *)
Abbreviation club := (gmap str json).

(** [d.get(key)] *)
Definition dict_get (d : club) (key : str) : json := default JNull (d !! key).

(** ** Asset descriptors ([_create_logo_assignment.py], lines 33-49) *)

Record logo := {
  logo_league : str;
  logo_path : str;
  logo_stem : str;
  logo_tokens : gset str
}.

(** [logo["league"] == league] for a [league] read from JSON. *)
Definition same_league (league : json) (l : logo) : bool :=
  match league with
  | JStr s => bool_decide (logo_league l = s)
  | _ => false
  end.

Inductive tier := Exact | Containment | BaseName | TokenOverlap.

(** The variables [best] and [best_score] of the matching loop, and the
    tiers whose loop was entered (a ghost field, for the claims on tier
    order). *)
Record match_state := {
  best : option logo;
  best_score : nat;
  attempted : list tier
}.

Definition is_some {A} (o : option A) : bool :=
  match o with Some _ => true | None => false end.

(** [for logo in logos: if cond(logo): best = logo; break] *)
Fixpoint for_break (cond : logo → bool) (logos : list logo)
    (best : option logo) : option logo :=
  match logos with
  | [] => best
  | l :: rest => if cond l then Some l else for_break cond rest best
  end.

(** The scoring loop of tier 4 (lines 95-101). *)
Fixpoint for_score (league : json) (club_tokens : gset str) (logos : list logo)
    (best : option logo) (best_score : nat) : option logo * nat :=
  match logos with
  | [] => (best, best_score)
  | l :: rest =>
      if negb (same_league league l) then
        for_score league club_tokens rest best best_score
      else
        let score := size (club_tokens ∩ logo_tokens l) in
        if (best_score <? score)%nat then
          for_score league club_tokens rest (Some l) score
        else for_score league club_tokens rest best best_score
  end.

(** ** Documents, as BeautifulSoup presents them *)

(** The classes BeautifulSoup gives to strings other than ordinary text:
    markup that is not text, and the text inside [style], [script],
    [template], [rt] and [rp] elements. *)
Inductive string_class :=
| CData
| Comment
| Declaration
| Doctype
| ProcessingInstruction
| Stylesheet
| Script
| TemplateString
| RubyTextString
| RubyParenthesisString.

#[global] Instance string_class_eq_dec : EqDecision string_class.
Proof. solve_decision. Defined.

(** A node of the parsed tree: ordinary text (a [NavigableString]), a
    string of another class, or an element with its attributes (distinct
    names) and children. *)
Inductive node :=
| Text (s : str)
| Special (cls : string_class) (s : str)
| Elem (tag : str) (attrs : list (str * str)) (children : list node).

(** All descendants of a node, in document order. *)
Fixpoint descendants (n : node) : list node :=
  match n with
  | Text _ | Special _ _ => []
  | Elem _ _ children =>
      (fix go (cs : list node) : list node :=
         match cs with
         | [] => []
         | c :: cs' => c :: descendants c ++ go cs'
         end) children
  end.

Definition tag_in (tags : list str) (n : node) : bool :=
  match n with
  | Text _ | Special _ _ => false
  | Elem t _ _ => bool_decide (t ∈ tags)
  end.

(** [n[name]], or [None] when the attribute is absent. *)
Definition get_attr (name : str) (n : node) : option str :=
  match n with
  | Text _ | Special _ _ => None
  | Elem _ attrs _ => snd <$> List.find (λ kv, bool_decide (kv.1 = name)) attrs
  end.

(** The value of the multi-valued [class] attribute: the whitespace-separated
    words of the raw attribute. *)
Definition class_list (n : node) : option (list str) :=
  (λ v, List.filter nonempty (split_on 32 (sub_runs isspace [32] false v)))
    <$> get_attr (lit "class") n.

(** [n.find_all(tags)] and [n.find(tags)], with a filter on the element. *)
Definition find_all (tags : list str) (keep : node → bool) (n : node) : list node :=
  List.filter (λ d, tag_in tags d && keep d) (descendants n).

Definition find (tags : list str) (keep : node → bool) (n : node) : option node :=
  head (find_all tags keep n).

(** [class_=f] for a predicate [f] on strings: some class satisfies [f], or
    the space-joined classes do; an element without [class] never matches
    the predicates used here. *)
Definition class_matches (f : str → bool) (n : node) : bool :=
  match class_list n with
  | None => false
  | Some cs => existsb f cs || f (join [32] cs)
  end.

Definition any_node (n : node) : bool := true.
Definition has_attr (name : str) (n : node) : bool := is_some (get_attr name n).

(** The class of the strings that [get_text] collects below an element of
    the given name, when it is not ordinary text. *)
Definition container_class (tag : str) : option string_class :=
  if bool_decide (tag = lit "style") then Some Stylesheet
  else if bool_decide (tag = lit "script") then Some Script
  else if bool_decide (tag = lit "template") then Some TemplateString
  else if bool_decide (tag = lit "rt") then Some RubyTextString
  else if bool_decide (tag = lit "rp") then Some RubyParenthesisString
  else None.

(** The text of [d] when [get_text] on [n] collects it: below an ordinary
    element, ordinary text and CDATA sections; below a [style], [script],
    [template], [rt] or [rp] element, the strings of that element's class
    only. Comments and the like are never collected. *)
Definition collected (n d : node) : option str :=
  let wanted := match n with Elem t _ _ => container_class t | _ => None end in
  match d, wanted with
  | Text s, None => Some s
  | Special c s, None => if bool_decide (c = CData) then Some s else None
  | Special c s, Some c' => if bool_decide (c = c') then Some s else None
  | _, _ => None
  end.

(** The strings [get_text] collects below [n], in document order. *)
Definition strings_of (n : node) : list str :=
  omap (collected n) (match n with Elem _ _ _ => descendants n | _ => [n] end).

(** [n.get_text(sep, strip=True)] *)
Definition get_text (sep : str) (n : node) : str :=
  join sep (List.filter nonempty (strip <$> strings_of n)).

(** Lexicographic order on strings by code point, as [<=] on [str]. *)
Fixpoint str_leb (a b : str) : bool :=
  match a, b with
  | [], _ => true
  | _ :: _, [] => false
  | x :: a', y :: b' => (x <? y) || ((x =? y) && str_leb a' b')
  end.

Definition str_le (a b : str) : Prop := str_leb a b = true.

#[global] Instance str_le_dec a b : Decision (str_le a b).
Proof. unfold str_le. apply _. Defined.

(** [str(n)] for a natural number. *)
Definition str_of_nat (n : nat) : str := lit (NilEmpty.string_of_uint (Nat.to_uint n)).

(** [re.findall(cls+, s)]: the maximal runs of characters of the class. *)
Fixpoint findall_runs (cls : N → bool) (s : str) : list str :=
  match s with
  | [] => []
  | c :: rest =>
      if cls c then
        match rest with
        | c' :: _ =>
            if cls c' then
              match findall_runs cls rest with
              | w :: ws => (c :: w) :: ws
              | [] => [[c]]
              end
            else [c] :: findall_runs cls rest
        | [] => [[c]]
        end
      else findall_runs cls rest
  end.

Fixpoint find_index {A} (p : A → bool) (l : list A) : option nat :=
  match l with
  | [] => None
  | x :: rest => if p x then Some O else S <$> find_index p rest
  end.

(** The closing bracket of [\(.*?\)]: the first [)] with no newline before
    it; the result is the number of characters before it and the rest. *)
Fixpoint find_close (s : str) : option (nat * str) :=
  match s with
  | [] => None
  | c :: r =>
      if c =? 41 then Some (O, r)
      else if c =? 10 then None
      else (λ kr : nat * str, (S kr.1, kr.2)) <$> find_close r
  end.

(** The length of the match of [\s*\(.*?\)\s*] at the start of [s]. *)
Definition bracket_match (s : str) : option nat :=
  let '(ws, r) := span isspace s in
  match r with
  | 40 :: r' =>
      (λ kr : nat * str,
         (length ws + 1 + kr.1 + 1 + length (span isspace kr.2).1)%nat)
        <$> find_close r'
  | _ => None
  end.

(** [re.sub(r"\s*\(.*?\)\s*", " ", s)] *)
Fixpoint sub_brackets (skip : nat) (s : str) : str :=
  match s with
  | [] => []
  | c :: rest =>
      match skip with
      | S k => sub_brackets k rest
      | O =>
          match bracket_match s with
          | Some n => 32 :: sub_brackets (n - 1) rest
          | None => c :: sub_brackets 0 rest
          end
      end
  end.

(** ** Records of the scraping pipeline ([_generate_clubs.py]) *)

(** One entry of [LEAGUES]. *)
Record league_desc := {
  league_name : str;
  league_country : str;
  league_code : str;
  league_tier : Z;
  league_url : str
}.

(** One value of [all_clubs]. *)
Record club_record := {
  rec_id : str;
  rec_name : str;
  rec_country : str;
  rec_league : str;
  rec_tier : Z;
  rec_lat : pyfloat;
  rec_lon : pyfloat;
  rec_ground : str;
  rec_aliases : list str;
  rec_wikipedia : str;
  rec_ground_wikipedia : option str
}.

(** What a run of [main] changes: the dict [all_clubs] and the lines
    printed so far. *)
Record run_state := {
  all_clubs : gmap str club_record;
  stdout : list str
}.

(** * Sample inputs

    Concrete stand-ins for the library routines and a few documents, used
    to run the functions below on explicit inputs. *)

Module Sample.

(** NFKD on the few accented letters used here; other code points are
    their own decomposition. *)
Definition nfkd (s : str) : str :=
  mjoin ((λ c, if c =? 233 then [101; 769]
               else if c =? 246 then [111; 776]
               else [c]) <$> s).

Definition lower (s : str) : str := ascii_lower s.
Definition isalnum (c : N) : bool := is_upper c || is_lower c || is_digit c.
Definition decimal (c : N) : option N :=
  if (0xFF10 <=? c) && (c <=? 0xFF19) then Some (c - 0xFF10) else None.
Definition urljoin (base href : str) : str := base ++ href.

(** A league page with two standings tables that both list Arsenal, a club
    page with an infobox, and a ground page whose coordinate marker holds
    the text [geo]. *)
Definition cell (s : string) : node := Elem (lit "td") [] [Text (lit s)].
Definition head_cell (s : string) : node := Elem (lit "th") [] [Text (lit s)].
Definition link_cell (href text : string) : node :=
  Elem (lit "td") [] [Elem (lit "a") [(lit "href", lit href)] [Text (lit text)]].
Definition row (cells : list node) : node := Elem (lit "tr") [] cells.
Definition table (class : string) (rows : list node) : node :=
  Elem (lit "table") [(lit "class", lit class)] rows.
Definition page (body : list node) : node := Elem (lit "html") [] body.

Definition league_page : node :=
  page [ table "wikitable sortable"
           [ row [head_cell "Pos"; head_cell "Team"];
             row [cell "1"; link_cell "/wiki/Arsenal_F.C." "Arsenal F.C."];
             row [cell "2"; link_cell "/wiki/Chelsea_F.C." "Chelsea F.C."] ];
         table "wikitable"
           [ row [head_cell "Pos"; head_cell "Club"];
             row [cell "1"; link_cell "/wiki/Arsenal_F.C." "Arsenal"] ] ].

Definition club_page : node :=
  page [ table "infobox vcard"
           [ row [head_cell "Ground";
                  link_cell "/wiki/Emirates_Stadium" "Emirates Stadium"] ] ].

Definition ground_page (geo : string) : node :=
  page [ Elem (lit "span") [(lit "class", lit "geo")] [Text (lit geo)] ].

Definition league_url : str :=
  lit "https://en.wikipedia.org/wiki/2024%E2%80%9325_Premier_League".
Definition club_url : str := lit "https://en.wikipedia.org/wiki/Arsenal_F.C.".
Definition ground_url : str := lit "https://en.wikipedia.org/wiki/Emirates_Stadium".

(** The network: the three pages above are served, any other address
    (Chelsea's page among them) answers 404. *)
Definition fetch (url : str) : result str :=
  if bool_decide (url = league_url) then Ok (lit "league")
  else if bool_decide (url = club_url) then Ok (lit "club")
  else if bool_decide (url = ground_url) then Ok (lit "ground")
  else Raise (HTTPError (lit "404 Client Error")).

Definition premier_league : league_desc :=
  Build_league_desc (lit "Premier League") (lit "ENG") (lit "PL") 1 league_url.

Definition chelsea_url : str := lit "https://en.wikipedia.org/wiki/Chelsea_F.C.".

(** The record the pipeline builds for Arsenal from these pages, with the
    coordinates [lat] and [lon]; [arsenal_record] is the one for the
    marker [51.555; -0.108]. *)
Definition arsenal_record_at (lat lon : pyfloat) : club_record :=
  {| rec_id := lit "arsenal_fc";
     rec_name := lit "Arsenal F.C.";
     rec_country := lit "ENG";
     rec_league := lit "PL";
     rec_tier := 1;
     rec_lat := lat;
     rec_lon := lon;
     rec_ground := lit "Emirates Stadium";
     rec_aliases := [lit "af"; lit "arsenal"; lit "arsenal fc"];
     rec_wikipedia := club_url;
     rec_ground_wikipedia := Some ground_url |}.

Definition arsenal_record : club_record :=
  arsenal_record_at (PyFinite 51555000 (-6)) (PyFinite (-108000) (-6)).

(** Two standard outputs: one encoded as UTF-8, which refuses only the
    surrogate code points, and one limited to ASCII. *)
Definition utf8_stdout (line : str) : option str :=
  if forallb (λ c, (c <? 0xD800) || (0xDFFF <? c)) line then None
  else Some (lit "'utf-8' codec can't encode character: surrogates not allowed").

Definition ascii_stdout (line : str) : option str :=
  if forallb is_ascii line then None
  else Some (lit "'ascii' codec can't encode character: ordinal not in range(128)").

Definition parse (geo : string) (html : str) : node :=
  if bool_decide (html = lit "league") then league_page
  else if bool_decide (html = lit "club") then club_page
  else if bool_decide (html = lit "ground") then ground_page geo
  else Text [].

End Sample.

(** * The repository's functions *)

Section Repo.

(** [unicodedata.normalize("NFKD", _)] *)
Variable nfkd : str → str.
(** [str.lower] and [str.isalnum] (one code point) on arbitrary Unicode text *)
Variable unicode_lower : str → str.
Variable unicode_isalnum : N → bool.
(** The decimal value of a non-ASCII decimal digit ([unicodedata.decimal]) *)
Variable unicode_decimal : N → option N.
(** [urllib.parse.urljoin] *)
Variable urljoin : str → str → str.
(** [requests.get(url).text] after [raise_for_status], and
    [BeautifulSoup(html, "html.parser")] *)
Variable http_fetch : str → result str.
Variable parse_html : str → node.
(** What standard output does with a line: [None] when its encoding has
    every character of the line, and otherwise the message of the
    [UnicodeEncodeError] that [print] raises. *)
Variable encode_failure : str → option str.

(** ** Text Normalizer ([_create_logo_assignment.py], lines 12-31) *)

Definition STOPWORDS : gset str :=
  list_to_set (lit <$> ["fc"; "f"; "c"; "afc"; "the"; "city"; "town";
                        "united"; "utd"; "football"; "club"]%string).

Definition normalise (text : str) : str :=
  let text := nfkd text in
  let text := encode_ascii_ignore text in
  let text := ascii_lower text in
  let text := List.filter (λ c, ascii_word c || isspace c) text in
  let text := sub_runs isspace [underscore] false text in
  strip_by (N.eqb underscore) text.

Definition tokens (text : str) : list str :=
  List.filter (λ t, nonempty t && negb (bool_decide (t ∈ STOPWORDS)))
              (split_on underscore (normalise text)).

(** ** Fuzzy Entity Matcher ([_create_logo_assignment.py], lines 33-112) *)

(** One entry of [logos] (lines 44-49), from the league directory name and
    the file's name and stem. *)
Definition load_logo (league file_name file_stem : str) : logo :=
  {| logo_league := league;
     logo_path := lit "club_logos_by_league/" ++ league ++ lit "/" ++ file_name;
     logo_stem := normalise file_stem;
     logo_tokens := list_to_set (tokens file_stem) |}.

(** Lines 72-76 *)
Definition tier_exact (club_norm : str) (league : json) (logos : list logo)
    (st : match_state) : match_state :=
  {| best := for_break (λ l, same_league league l
                             && bool_decide (logo_stem l = club_norm))
                       logos (best st);
     best_score := best_score st;
     attempted := attempted st ++ [Exact] |}.

(** Lines 78-83 *)
Definition tier_containment (club_norm : str) (league : json) (logos : list logo)
    (st : match_state) : match_state :=
  if is_some (best st) then st
  else
    {| best := for_break (λ l, same_league league l
                               && contains club_norm (logo_stem l))
                         logos (best st);
       best_score := best_score st;
       attempted := attempted st ++ [Containment] |}.

(** Lines 85-91 *)
Definition tier_base_name (name : str) (league : json) (logos : list logo)
    (st : match_state) : match_state :=
  if is_some (best st) then st
  else
    let base := join [underscore] (tokens name) in
    {| best := for_break (λ l, same_league league l && nonempty base
                               && contains base (logo_stem l))
                         logos (best st);
       best_score := best_score st;
       attempted := attempted st ++ [BaseName] |}.

(** Lines 93-104 *)
Definition tier_token_overlap (club_tokens : gset str) (league : json)
    (logos : list logo) (st : match_state) : match_state :=
  if is_some (best st) then st
  else
    let '(b, score) := for_score league club_tokens logos (best st) (best_score st) in
    {| best := if (score <? 1)%nat then None else b;
       best_score := score;
       attempted := attempted st ++ [TokenOverlap] |}.

(** Lines 66-104: the state when the four tiers have run. *)
Definition match_club (name : str) (league : json) (logos : list logo) : match_state :=
  let club_norm := normalise name in
  let club_tokens : gset str := list_to_set (tokens name) in
  let st := {| best := None; best_score := 0; attempted := [] |} in
  let st := tier_exact club_norm league logos st in
  let st := tier_containment club_norm league logos st in
  let st := tier_base_name name league logos st in
  tier_token_overlap club_tokens league logos st.

Definition resolve (name : str) (league : json) (logos : list logo) : option logo :=
  best (match_club name league logos).

(** The loop over [clubs] (lines 56-112): the entries as they will be
    written back, the two counters and the printed lines. *)
Record assign_state := {
  clubs_out : list club;
  matched : nat;
  missing : nat;
  printed : list str
}.

(** [print(line)] at lines 109 and 112: on a standard output that accepts
    every line, and on the one described by [encode_failure], where a
    refused line raises out of the loop. *)
Definition report (line : str) (st : assign_state) : result assign_state :=
  Ok {| clubs_out := clubs_out st; matched := matched st; missing := missing st;
        printed := printed st ++ [line] |}.

Definition report_console (line : str) (st : assign_state) : result assign_state :=
  match encode_failure line with
  | None => report line st
  | Some msg => Raise (UnicodeEncodeError msg)
  end.

Definition line_ok (name : str) (b : logo) : str :=
  lit "[OK] " ++ name ++ lit " -> " ++ logo_path b.

Definition line_miss (name : str) : str := lit "[MISS] " ++ name.

(** One iteration of the loop (lines 56-112), printing with [out]. *)
Definition assign_club_with (out : str → assign_state → result assign_state)
    (logos : list logo) (st : assign_state) (c : club) : result assign_state :=
  let name := dict_get c (lit "name") in
  let league := dict_get c (lit "league") in
  if negb (truthy name) || negb (truthy league) then
    Ok {| clubs_out := clubs_out st ++ [c]; matched := matched st;
          missing := missing st; printed := printed st |}
  else
    match name with
    | JStr name =>
        match resolve name league logos with
        | Some b =>
            out (line_ok name b)
              {| clubs_out := clubs_out st ++ [<[lit "logo" := JStr (logo_path b)]> c];
                 matched := S (matched st);
                 missing := missing st;
                 printed := printed st |}
        | None =>
            out (line_miss name)
              {| clubs_out := clubs_out st ++ [c];
                 matched := matched st;
                 missing := S (missing st);
                 printed := printed st |}
        end
    | _ => Raise TypeError
    end.

Fixpoint assign_clubs_with (out : str → assign_state → result assign_state)
    (logos : list logo) (st : assign_state) (clubs : list club)
    : result assign_state :=
  match clubs with
  | [] => Ok st
  | c :: rest =>
      st' ← assign_club_with out logos st c; assign_clubs_with out logos st' rest
  end.

Definition assign_club : list logo → assign_state → club → result assign_state :=
  assign_club_with report.
Definition assign_clubs : list logo → assign_state → list club → result assign_state :=
  assign_clubs_with report.
Definition assign_club_console
    : list logo → assign_state → club → result assign_state :=
  assign_club_with report_console.
Definition assign_clubs_console
    : list logo → assign_state → list club → result assign_state :=
  assign_clubs_with report_console.

Definition assign_logos (logos : list logo) (clubs : list club) : result assign_state :=
  assign_clubs logos
    {| clubs_out := []; matched := 0; missing := 0;
       printed := [lit "Loaded " ++ str_of_nat (length logos) ++ lit " logos"] |}
    clubs.

(** ** Helpers of [_generate_clubs.py] (lines 54-102) *)

Definition WIKI : str := lit "https://en.wikipedia.org".

Definition unicode_word (c : N) : bool := unicode_isalnum c || (c =? underscore).

Definition slugify (name : str) : str :=
  let s := unicode_lower name in
  let s := sub_brackets 0 s in
  let s := replace [0x2019] (lit "'") s in
  let s := List.filter (λ c, unicode_word c || isspace c || (c =? 45)) s in
  strip_by (N.eqb underscore) (sub_runs isspace [underscore] false s).

(** [sorted(aliases)] for a set of strings. *)
Definition sorted_strs (s : gset str) : list str := merge_sort str_le (elements s).

Definition build_aliases (name : str) : list str :=
  let base := replace (lit ".") [] (unicode_lower name) in
  let aliases : gset str := {[ base ]} in
  let aliases := aliases ∪ {[ strip (replace (lit " football club") [] base) ]} in
  let aliases :=
    aliases ∪ {[ strip (replace (lit " fc") [] (replace (lit " f.c.") [] base)) ]} in
  let words := findall_runs (λ c, is_lower c || is_digit c) base in
  let aliases :=
    if (2 <=? length words)%nat
    then aliases ∪ {[ mjoin ((λ w, take 1 w) <$> words) ]}
    else aliases in
  let aliases := aliases ∪ {[ replace (lit "&") (lit "and") base ]} in
  let aliases : gset str :=
    set_map strip (filter (λ a, nonempty (strip a) = true) aliases) in
  sorted_strs aliases.

Definition http_get (url : str) : result str := http_fetch url.

Definition normalize_wiki_href (href : str) : str :=
  if startswith (lit "http") href then href else urljoin WIKI href.

Definition is_wiki_article_link (href : str) : bool :=
  if negb (nonempty href) then false
  else if negb (startswith (lit "/wiki/") href) then false
  else if contains (lit "redlink=1") href then false
  else if startswith (lit "/wiki/File:") href || startswith (lit "/wiki/Help:") href
          || startswith (lit "/wiki/Special:") href then false
  else true.

(** ** Document Table Extractor (lines 108-175) *)

Definition cell_text (n : node) : str := unicode_lower (get_text [32] n).

Definition is_team_column (name : str) : bool :=
  bool_decide (name ∈ [lit "team"; lit "club"])
  || contains (lit "team") name || contains (lit "club") name.

(** Lines 146-164: the pair a row contributes, if any. *)
Definition row_candidate (team_idx : nat) (tr : node) : option (str * str) :=
  let tds := find_all [lit "th"; lit "td"] any_node tr in
  match tds !! team_idx with
  | None => None
  | Some cell =>
      match find [lit "a"] (has_attr (lit "href")) cell with
      | None => None
      | Some a =>
          let href := default [] (get_attr (lit "href") a) in
          if negb (is_wiki_article_link href) then None
          else
            let name := get_text [32] a in
            if negb (nonempty name) then None
            else Some (name, normalize_wiki_href href)
      end
  end.

(** Lines 122-164: the pairs a table contributes. *)
Definition table_candidates (table : node) : list (str * str) :=
  let headers := cell_text <$> find_all [lit "th"] any_node table in
  let header_text := join [32] headers in
  if negb (contains (lit "pos") header_text)
     || (negb (contains (lit "team") header_text)
         && negb (contains (lit "club") header_text))
  then []
  else
    match find [lit "tr"] any_node table with
    | None => []
    | Some header_row =>
        let ths := find_all [lit "th"; lit "td"] any_node header_row in
        let col_names := cell_text <$> ths in
        match find_index is_team_column col_names with
        | None => []
        | Some team_idx =>
            omap (row_candidate team_idx)
                 (drop 1 (find_all [lit "tr"] any_node table))
        end
    end.

Definition candidates (soup : node) : list (str * str) :=
  let tables :=
    find_all [lit "table"] (class_matches (contains (lit "wikitable"))) soup in
  mjoin (table_candidates <$> tables).

(** Lines 166-173: one iteration of the de-duplication loop on [(seen, out)]. *)
Definition dedupe_step (acc : gset str * list (str * str)) (c : str * str)
    : gset str * list (str * str) :=
  if bool_decide (c.2 ∈ acc.1) then acc
  else ({[ c.2 ]} ∪ acc.1, acc.2 ++ [c]).

Definition dedupe_by_url (cands : list (str * str)) : list (str * str) :=
  (fold_left dedupe_step cands (∅, [])).2.

Definition extract_entity_links (soup : node) : list (str * str) :=
  dedupe_by_url (candidates soup).

Definition scrape_club_links_from_league (league_url : str)
    : result (list (str * str)) :=
  html ← http_get league_url;
  mret (extract_entity_links (parse_html html)).

(** ** Infobox Field Extractor (lines 181-212) *)

(** Lines 194-210: the loop over the rows of the infobox. *)
Fixpoint ground_row (rows : list node) : option (str * option str) :=
  match rows with
  | [] => None
  | tr :: rest =>
      match find [lit "th"] any_node tr, find [lit "td"] any_node tr with
      | Some th, Some td =>
          let label := cell_text th in
          if bool_decide (label ∈ [lit "ground"; lit "home ground"; lit "stadium"]) then
            let plain :=
              let text := get_text [32] td in
              if nonempty text then Some (text, None) else ground_row rest in
            match find [lit "a"] (has_attr (lit "href")) td with
            | Some a =>
                let href := default [] (get_attr (lit "href") a) in
                if is_wiki_article_link href then
                  Some (get_text [32] a, Some (normalize_wiki_href href))
                else plain
            | None => plain
            end
          else ground_row rest
      | _, _ => ground_row rest
      end
  end.

Definition find_home_ground_link (club_url : str)
    : result (option (str * option str)) :=
  html ← http_get club_url;
  let soup := parse_html html in
  match find [lit "table"] (class_matches (contains (lit "infobox"))) soup with
  | None => mret None
  | Some infobox => mret (ground_row (find_all [lit "tr"] any_node infobox))
  end.

(** ** Coordinate Extractor (lines 218-245) *)

(** Spaces and decimal digits outside ASCII become their ASCII
    counterparts, any other non-ASCII character a question mark. *)
Definition to_ascii_number (c : N) : N :=
  if c <? 127 then c
  else if isspace c then 32
  else match unicode_decimal c with
       | Some d => 48 + d
       | None => 63
       end.

(** [float(s)] for a string [s] *)
Definition py_float (s : str) : result pyfloat :=
  let t := strip_by float_isspace (to_ascii_number <$> s) in
  match t with
  | [] => Raise ValueError
  | _ =>
      match drop_underscores 0 t ≫= parse_float_ascii with
      | Some x => Ok x
      | None => Raise ValueError
      end
  end.

(** Lines 232-233: the body of the [try]. *)
Definition parse_geo (geo : node) : result (pyfloat * pyfloat) :=
  match strip <$> split_on 59 (get_text [] geo) with
  | [lat_str; lon_str] =>
      lat ← py_float lat_str;
      lon ← py_float lon_str;
      mret (lat, lon)
  | _ => Raise ValueError
  end.

Definition class_is (c : str) : node → bool :=
  class_matches (λ v, bool_decide (v = c)).

Definition extract_coords_from_wiki_page (url : option str)
    : result (option (pyfloat * pyfloat)) :=
  match url with
  | None => mret None
  | Some url =>
      if negb (nonempty url) then mret None
      else
        html ← http_get url;
        let soup := parse_html html in
        let after_geo : result (option (pyfloat * pyfloat)) :=
          match find [lit "span"] (class_is (lit "geo-dec")) soup with
          | Some geo_dec => mret None
          | None => mret None
          end in
        match find [lit "span"] (class_is (lit "geo")) soup with
        | Some geo => catch (Some <$> parse_geo geo) (λ _, after_geo)
        | None => after_geo
        end
  end.

(** ** Scraping Pipeline (lines 23-46 and 251-307) *)

Definition LEAGUES : list league_desc :=
  (λ t : string * string * string * Z * string,
     let '(n, c, k, t, u) := t in
     {| league_name := lit n; league_country := lit c; league_code := lit k;
        league_tier := t; league_url := lit u |}) <$>
  [ ("Premier League", "ENG", "PL", 1%Z,
     "https://en.wikipedia.org/wiki/2024%E2%80%9325_Premier_League");
    ("EFL Championship", "ENG", "CH", 2%Z,
     "https://en.wikipedia.org/wiki/2024%E2%80%9325_EFL_Championship");
    ("EFL League One", "ENG", "L1", 3%Z,
     "https://en.wikipedia.org/wiki/2024%E2%80%9325_EFL_League_One");
    ("EFL League Two", "ENG", "L2", 4%Z,
     "https://en.wikipedia.org/wiki/2024%E2%80%9325_EFL_League_Two");
    ("National League", "ENG", "NL", 5%Z,
     "https://en.wikipedia.org/wiki/2024%E2%80%9325_National_League");
    ("Scottish Premiership", "SCO", "SP", 1%Z,
     "https://en.wikipedia.org/wiki/2024%E2%80%9325_Scottish_Premiership");
    ("Scottish Championship", "SCO", "SC", 2%Z,
     "https://en.wikipedia.org/wiki/2024%E2%80%9325_Scottish_Championship");
    ("Scottish League One", "SCO", "SL1", 3%Z,
     "https://en.wikipedia.org/wiki/2024%E2%80%9325_Scottish_League_One");
    ("Scottish League Two", "SCO", "SL2", 4%Z,
     "https://en.wikipedia.org/wiki/2024%E2%80%9325_Scottish_League_Two");
    ("Cymru Premier", "WAL", "CP", 1%Z,
     "https://en.wikipedia.org/wiki/2024%E2%80%9325_Cymru_Premier");
    ("LOI Premier Division", "IRL", "PD", 1%Z,
     "https://en.wikipedia.org/wiki/2024_League_of_Ireland_Premier_Division");
    ("LOI First Division", "IRL", "FD", 2%Z,
     "https://en.wikipedia.org/wiki/2024_League_of_Ireland_First_Division");
    ("NIFL Premiership", "NIR", "NIP", 1%Z,
     "https://en.wikipedia.org/wiki/2024%E2%80%9325_NIFL_Premiership")
  ]%string.



(** Statements of [main]: they read and change the run state and may raise;
    the state reached when an exception is raised is kept. *)
Definition io (A : Type) : Type := run_state → result A * run_state.

Definition io_ret {A} (a : A) : io A := λ st, (Ok a, st).

Definition io_bind {A B} (m : io A) (k : A → io B) : io B :=
  λ st, match m st with
        | (Ok a, st') => k a st'
        | (Raise e, st') => (Raise e, st')
        end.

(** [try: body except Exception as e: handler(e)] *)
Definition io_catch {A} (body : io A) (handler : exn → io A) : io A :=
  λ st, match body st with
        | (Ok a, st') => (Ok a, st')
        | (Raise e, st') => handler e st'
        end.

(** A call of a function that does not touch the run state. *)
Definition call {A} (r : result A) : io A := λ st, (r, st).

(** [print(line)] on a standard output that accepts every line. *)
Definition print (line : str) : io unit :=
  λ st, (Ok tt, {| all_clubs := all_clubs st; stdout := stdout st ++ [line] |}).

(** [print(line)] on the standard output described by [encode_failure]:
    the line is encoded before anything is written, so a refused line
    raises and leaves the output as it was. *)
Definition print_console (line : str) : io unit :=
  λ st, match encode_failure line with
        | None => (Ok tt, {| all_clubs := all_clubs st; stdout := stdout st ++ [line] |})
        | Some msg => (Raise (UnicodeEncodeError msg), st)
        end.

(** [all_clubs[club_id] = record] *)
Definition store (club_id : str) (r : club_record) : io unit :=
  λ st, (Ok tt, {| all_clubs := <[club_id := r]> (all_clubs st); stdout := stdout st |}).

Notation "x ⇐ m ;; k" := (io_bind m (λ x, k))
  (at level 100, m at next level, right associativity, only parsing).
Notation "m ;;; k" := (io_bind m (λ _, k))
  (at level 100, right associativity, only parsing).

Definition cross : str := [0x2717].
Definition tick : str := [0x2713].

(** The lines that the loop over [club_links] prints (lines 270, 277, 296,
    300 and 302). *)
Definition line_no_ground (club_name : str) : str :=
  lit "  " ++ cross ++ lit " " ++ club_name ++ lit " (no ground found)".

Definition line_no_coords (club_name ground_name : str) : str :=
  lit "  " ++ cross ++ lit " " ++ club_name
  ++ lit " (no coords for ground: " ++ ground_name ++ lit ")".

Definition line_stored (club_name ground_name : str) : str :=
  lit "  " ++ tick ++ lit " " ++ club_name ++ lit "  ->  " ++ ground_name.

Definition line_failure (club_name : str) (e : exn) : str :=
  match e with
  | HTTPError msg =>
      lit "  " ++ cross ++ lit " " ++ club_name ++ lit " (HTTP error: " ++ msg ++ lit ")"
  | _ =>
      lit "  " ++ cross ++ lit " " ++ club_name
      ++ lit " (error: " ++ exn_message e ++ lit ")"
  end.

(** Lines 268-297: the body of the [try] for one club, printing with
    [out]. *)
Definition club_body_with (out : str → io unit) (lg : league_desc)
    (club_name club_url club_id : str) : io unit :=
  ground ⇐ call (find_home_ground_link club_url) ;;
  match ground with
  | None => out (line_no_ground club_name)
  | Some (ground_name, ground_url) =>
      coords ⇐ call (if nonempty (default [] ground_url)
                     then extract_coords_from_wiki_page ground_url
                     else Ok None) ;;
      match coords with
      | None => out (line_no_coords club_name ground_name)
      | Some (lat, lon) =>
          store club_id
            {| rec_id := club_id;
               rec_name := club_name;
               rec_country := league_country lg;
               rec_league := league_code lg;
               rec_tier := league_tier lg;
               rec_lat := py_round lat 6;
               rec_lon := py_round lon 6;
               rec_ground := ground_name;
               rec_aliases := build_aliases club_name;
               rec_wikipedia := club_url;
               rec_ground_wikipedia := ground_url |} ;;;
          out (line_stored club_name ground_name)
      end
  end.

(** Lines 299-302: the two [except] clauses. Their [print] is outside any
    [try]. *)
Definition club_handler_with (out : str → io unit) (club_name : str) (e : exn)
    : io unit :=
  out (line_failure club_name e).

(** Lines 264-302: one iteration of the loop over [club_links]. *)
Definition process_club_with (out : str → io unit) (lg : league_desc)
    (link : str * str) : io unit :=
  let '(club_name, club_url) := link in
  let club_id := slugify club_name in
  io_catch (club_body_with out lg club_name club_url club_id)
           (club_handler_with out club_name).

(** The iteration on an output that accepts every line, and on the output
    described by [encode_failure]. *)
Definition club_body : league_desc → str → str → str → io unit :=
  club_body_with print.
Definition club_handler : str → exn → io unit := club_handler_with print.
Definition process_club : league_desc → str * str → io unit :=
  process_club_with print.
Definition process_club_console : league_desc → str * str → io unit :=
  process_club_with print_console.

Fixpoint for_each {A} (body : A → io unit) (items : list A) : io unit :=
  match items with
  | [] => io_ret tt
  | x :: rest => body x ;;; for_each body rest
  end.

(** Lines 255-302: one iteration of the loop over [LEAGUES], on a
    standard output that accepts every line. *)
Definition process_league (lg : league_desc) : io unit :=
  print ([10] ++ lit "Scraping " ++ league_name lg) ;;;
  club_links ⇐ call (scrape_club_links_from_league (league_url lg)) ;;
  match club_links with
  | [] => print (lit "  !! No clubs found on this league page (table structure changed).")
  | _ =>
      print (lit "  Found " ++ str_of_nat (length club_links) ++ lit " club links") ;;;
      for_each (process_club lg) club_links
  end.

(** The sort key [(c["country"], c["tier"], c["name"])] compared as tuples. *)
Definition record_le (a b : club_record) : Prop :=
  (if bool_decide (rec_country a = rec_country b) then
     if (rec_tier a =? rec_tier b)%Z then str_leb (rec_name a) (rec_name b)
     else (rec_tier a <? rec_tier b)%Z
   else str_leb (rec_country a) (rec_country b)) = true.

#[global] Instance record_le_dec a b : Decision (record_le a b).
Proof. unfold record_le. apply _. Defined.

(** [main] over a list of leagues; the result is the list [final] written
    to the output file. *)
Definition main_on (leagues : list league_desc) : io (list club_record) :=
  for_each process_league leagues ;;;
  (λ st, (Ok (merge_sort record_le (snd <$> map_to_list (all_clubs st))), st)).

Definition main : io (list club_record) := main_on LEAGUES.

Definition initial_state : run_state := {| all_clubs := ∅; stdout := [] |}.


(** * The specification's vocabulary

    Definitions that follow the words of the specification; the properties
    below compare them with the functions above. *)

(** The characters a normalised string is made of: [[a-z0-9_]]. *)
Definition slug_char (c : N) : bool := is_lower c || is_digit c || (c =? underscore).

(** ASCII punctuation ([string.punctuation]) and ASCII whitespace. *)
Definition is_punct (c : N) : bool :=
  ((33 <=? c) && (c <=? 47)) || ((58 <=? c) && (c <=? 64))
  || ((91 <=? c) && (c <=? 96)) || ((123 <=? c) && (c <=? 126)).

Definition punct_or_space (c : N) : bool := is_punct c || (is_ascii c && isspace c).

(** [needle] occurs in [hay]. *)
Definition substring (needle hay : str) : Prop :=
  ∃ pre post, hay = pre ++ needle ++ post.

(** The size of the intersection of the target's token set with the
    candidate's. *)
Definition overlap_score (name : str) (l : logo) : nat :=
  size ((list_to_set (tokens name) : gset str) ∩ logo_tokens l).

(** Tier 4 in the specification's words: among the candidates of the same
    group, the first one that attains the largest overlap, provided that
    overlap is at least 1. *)
Definition spec_token_overlap (name : str) (league : json) (logos : list logo)
    : option logo :=
  let pool := List.filter (same_league league) logos in
  let top := max_list (overlap_score name <$> pool) in
  if (top <? 1)%nat then None
  else List.find (λ l, (overlap_score name l =? top)%nat) pool.

(** What each tier yields on its own, in the specification's words. *)
Definition spec_tier (t : tier) (name : str) (league : json) (logos : list logo)
    : option logo :=
  let pool := List.filter (same_league league) logos in
  match t with
  | Exact =>
      List.find (λ l, bool_decide (logo_stem l = normalise name)) pool
  | Containment =>
      List.find (λ l, contains (normalise name) (logo_stem l)) pool
  | BaseName =>
      let base := join [underscore] (tokens name) in
      if nonempty base then List.find (λ l, contains base (logo_stem l)) pool
      else None
  | TokenOverlap => spec_token_overlap name league logos
  end.

(** An ordered list of strategies tried in turn, stopping at the first one
    that yields a candidate; the second component lists the strategies
    tried. *)
Fixpoint first_tier (ts tried : list tier) (name : str) (league : json)
    (logos : list logo) : option logo * list tier :=
  match ts with
  | [] => (None, tried)
  | t :: rest =>
      match spec_tier t name league logos with
      | Some l => (Some l, tried ++ [t])
      | None => first_tier rest (tried ++ [t]) name league logos
      end
  end.

Definition all_tiers : list tier := [Exact; Containment; BaseName; TokenOverlap].

(** An entry that the loop over [clubs] passes over: appended unchanged,
    counters and output untouched. *)
Definition skipped (st : assign_state) (c : club) : assign_state :=
  {| clubs_out := clubs_out st ++ [c]; matched := matched st;
     missing := missing st; printed := printed st |}.

(** A field of a club entry that is absent or holds the empty string. *)
Definition missing_or_empty (c : club) (key : str) : Prop :=
  c !! key = None ∨ c !! key = Some (JStr []).

(** The pairs the de-duplication loop keeps of [cands] when the links in
    [seen] have been met before. *)
Fixpoint dedupe_from (seen : gset str) (cands : list (str * str)) : list (str * str) :=
  match cands with
  | [] => []
  | c :: rest =>
      if bool_decide (c.2 ∈ seen) then dedupe_from seen rest
      else c :: dedupe_from ({[ c.2 ]} ∪ seen) rest
  end.

(** The state after one more printed line. *)
Definition logged (st : run_state) (line : str) : run_state :=
  {| all_clubs := all_clubs st; stdout := stdout st ++ [line] |}.

(** A statement keeps a property of the run state. *)
Definition preserves {A} (I : run_state → Prop) (m : io A) : Prop :=
  ∀ st, I st → I (m st).2.

(** Every record of [all_clubs] satisfies [P]. *)
Definition all_records (P : club_record → Prop) (st : run_state) : Prop :=
  ∀ id r, all_clubs st !! id = Some r → P r.

(** The record's coordinates are those read from its ground page, rounded
    to six decimals. *)
Definition from_marker (r : club_record) : Prop :=
  ∃ lat lon,
    extract_coords_from_wiki_page (rec_ground_wikipedia r) = Ok (Some (lat, lon))
    ∧ rec_lat r = py_round lat 6
    ∧ rec_lon r = py_round lon 6
    ∧ (in_interval (-90) 90 lat = true → in_interval (-90) 90 (rec_lat r) = true)
    ∧ (in_interval (-180) 180 lon = true → in_interval (-180) 180 (rec_lon r) = true).

(** Latitude in [[-90, 90]] and longitude in [[-180, 180]]. *)
Definition geographic (r : club_record) : bool :=
  in_interval (-90) 90 (rec_lat r) && in_interval (-180) 180 (rec_lon r).

(** An entry the loop over [clubs] tries to match: its name and its league
    are both truthy. *)
Definition considered (c : club) : bool :=
  truthy (dict_get c (lit "name")) && truthy (dict_get c (lit "league")).

(** An entry the loop can handle: when it is considered, its name is a
    string. *)
Definition name_usable (c : club) : bool :=
  negb (considered c)
  || match dict_get c (lit "name") with JStr _ => true | _ => false end.

(** The line the loop prints for an entry that it tries to match and
    whose name is a string. *)
Definition report_line (logos : list logo) (c : club) : option str :=
  match dict_get c (lit "name") with
  | JStr name =>
      Some (match resolve name (dict_get c (lit "league")) logos with
            | Some b => line_ok name b
            | None => line_miss name
            end)
  | _ => None
  end.

(** An entry the loop gets past on the standard output described by
    [encode_failure]: one it does not try to match, or one whose name is a
    string and whose line is accepted. *)
Definition passes (logos : list logo) (c : club) : bool :=
  negb (considered c)
  || match report_line logos c with
     | Some line => bool_decide (encode_failure line = None)
     | None => false
     end.

(** What is written back for an entry: the entry itself, or the entry with
    its [logo] key set to the path of a logo of the pool. *)
Definition written_back (logos : list logo) (c c' : club) : Prop :=
  c' = c ∨ ∃ l, l ∈ logos ∧ c' = <[lit "logo" := JStr (logo_path l)]> c.

(** Every record of [all_clubs], with its key, satisfies [P]. *)
Definition keyed_records (P : str → club_record → Prop) (st : run_state) : Prop :=
  ∀ id r, all_clubs st !! id = Some r → P id r.

(** What holds of a record stored under the key [id] by a run over
    [leagues]. *)
Definition well_formed_record (leagues : list league_desc) (id : str)
    (r : club_record) : Prop :=
  rec_id r = id
  ∧ id = slugify (rec_name r)
  ∧ rec_aliases r = build_aliases (rec_name r)
  ∧ (∃ u, rec_ground_wikipedia r = Some u ∧ nonempty u = true)
  ∧ ∃ lg, lg ∈ leagues
          ∧ rec_country r = league_country lg
          ∧ rec_league r = league_code lg
          ∧ rec_tier r = league_tier lg.

(** * Properties *)

(** Drops the library parameters a goal does not mention. *)
Ltac forget_libs :=
  try clear encode_failure; try clear http_fetch; try clear parse_html; try clear urljoin;
  try clear unicode_decimal; try clear unicode_isalnum;
  try clear unicode_lower; try clear nfkd.

(** ** Facts on the string primitives *)

Ltac bool_to_prop :=
  repeat match goal with
    | H : _ && _ = true |- _ => apply andb_true_iff in H; destruct H
    | H : _ || _ = true |- _ => apply orb_true_iff in H; destruct H
    | H : _ || _ = false |- _ => apply orb_false_iff in H; destruct H
    | H : negb _ = true |- _ => apply negb_true_iff in H
    | H : negb _ = false |- _ => apply negb_false_iff in H
    | H : (_ <=? _) = true |- _ => apply N.leb_le in H
    | H : (_ <? _) = true |- _ => apply N.ltb_lt in H
    | H : (_ =? _) = true |- _ => apply N.eqb_eq in H
    | H : (_ <=? _) = false |- _ => apply N.leb_gt in H
    | H : (_ <? _) = false |- _ => apply N.ltb_ge in H
    | H : (_ =? _) = false |- _ => apply N.eqb_neq in H
    end.

(** Decides a boolean fact on character classes from facts in [Prop]. *)
Ltac char_class :=
  first
    [ reflexivity
    | apply not_true_is_false; intros ?; bool_to_prop; lia
    | rewrite ?orb_true_iff, ?andb_true_iff, ?N.leb_le, ?N.eqb_eq, ?N.ltb_lt; lia ].

Lemma lstrip_by_all p s : Forall (λ c, p c = true) s → lstrip_by p s = [].
Proof. induction 1 as [|c s Hc _ IH]; simpl; [done | by rewrite Hc]. Qed.

Lemma lstrip_by_Forall (P : N → Prop) p s : Forall P s → Forall P (lstrip_by p s).
Proof.
  induction 1 as [|c s Hc Hs IH]; simpl; [constructor|].
  destruct (p c); [done | by constructor].
Qed.

Lemma rstrip_by_Forall (P : N → Prop) p s : Forall P s → Forall P (rstrip_by p s).
Proof.
  induction 1 as [|c s Hc Hs IH]; simpl; [constructor|].
  destruct (rstrip_by p s) as [|x r]; [destruct (p c); repeat constructor; done|].
  by constructor.
Qed.

Lemma rstrip_by_keep p c s : p c = false → rstrip_by p (c :: s) = c :: rstrip_by p s.
Proof. intros Hc. simpl. rewrite Hc. by destruct (rstrip_by p s). Qed.

Lemma rstrip_by_idem p s : rstrip_by p (rstrip_by p s) = rstrip_by p s.
Proof.
  induction s as [|c s IH]; simpl; [done|].
  destruct (rstrip_by p s) as [|x r] eqn:E.
  - destruct (p c) eqn:Hc; simpl; [done | by rewrite Hc].
  - change (rstrip_by p (c :: x :: r)) with
      (match rstrip_by p (x :: r) with
       | [] => if p c then [] else [c]
       | r' => c :: r'
       end).
    by rewrite IH.
Qed.

Lemma lstrip_by_fix p s : lstrip_by p (rstrip_by p (lstrip_by p s)) = rstrip_by p (lstrip_by p s).
Proof.
  induction s as [|c s IH]; simpl; [done|].
  destruct (p c) eqn:Hc; [done|].
  rewrite rstrip_by_keep by done. simpl. by rewrite Hc.
Qed.

Lemma strip_by_idem p s : strip_by p (strip_by p s) = strip_by p s.
Proof. unfold strip_by. by rewrite lstrip_by_fix, rstrip_by_idem. Qed.

Lemma strip_by_Forall (P : N → Prop) p s : Forall P s → Forall P (strip_by p s).
Proof. intros. by apply rstrip_by_Forall, lstrip_by_Forall. Qed.

Lemma filter_id {A} (p : A → bool) l : Forall (λ x, p x = true) l → List.filter p l = l.
Proof. induction 1 as [|x l Hx _ IH]; simpl; [done | by rewrite Hx, IH]. Qed.

Lemma filter_Forall {A} (P : A → Prop) (p : A → bool) l :
  Forall P l → Forall P (List.filter p l).
Proof.
  induction 1 as [|x l Hx _ IH]; simpl; [constructor|].
  destruct (p x); [by constructor | done].
Qed.

Lemma filter_holds {A} (p : A → bool) l : Forall (λ x, p x = true) (List.filter p l).
Proof.
  induction l as [|x l IH]; simpl; [constructor|].
  destruct (p x) eqn:E; [by constructor | done].
Qed.

Lemma sub_runs_id cls rep b s :
  Forall (λ c, cls c = false) s → sub_runs cls rep b s = s.
Proof.
  intros H. revert b. induction H as [|c s Hc _ IH]; intros b; simpl; [done|].
  by rewrite Hc, IH.
Qed.

Lemma sub_runs_Forall (P : N → Prop) cls rep b s :
  Forall P rep → Forall (λ c, cls c = false → P c) s →
  Forall P (sub_runs cls rep b s).
Proof.
  intros Hrep H. revert b. induction H as [|c s Hc _ IH]; intros b; simpl; [constructor|].
  destruct (cls c) eqn:E.
  - apply Forall_app. split; [destruct b; [constructor | done] | apply IH].
  - constructor; [by apply Hc | apply IH].
Qed.

(** ** The Text Normalizer *)

Lemma ascii_lower_char_not_upper c : is_upper (ascii_lower_char c) = false.
Proof.
  unfold ascii_lower_char. destruct (is_upper c) eqn:E; [|done].
  unfold is_upper in *. bool_to_prop. char_class.
Qed.

Lemma slug_char_facts c :
  slug_char c = true →
  is_ascii c = true ∧ is_upper c = false ∧ ascii_word c = true ∧ isspace c = false.
Proof.
  unfold slug_char, is_ascii, is_upper, ascii_word, isspace, is_lower, is_digit, underscore.
  intros H. bool_to_prop; subst; repeat split; char_class.
Qed.

Lemma ascii_lower_id s : Forall (λ c, is_upper c = false) s → ascii_lower s = s.
Proof.
  unfold ascii_lower. induction 1 as [|c s Hc _ IH]; [done|].
  rewrite fmap_cons, IH. unfold ascii_lower_char. by rewrite Hc.
Qed.

Lemma normalise_slug x : Forall (λ c, slug_char c = true) (normalise x).
Proof.
  unfold normalise. apply strip_by_Forall, sub_runs_Forall; [by repeat constructor|].
  assert (Forall (λ c, is_upper c = false)
            (ascii_lower (encode_ascii_ignore (nfkd x)))) as Hlow.
  { unfold ascii_lower. apply Forall_fmap, Forall_forall. intros c _.
    apply ascii_lower_char_not_upper. }
  pose proof (filter_holds (λ c, ascii_word c || isspace c)
                (ascii_lower (encode_ascii_ignore (nfkd x)))) as Hkeep.
  pose proof (filter_Forall _ (λ c, ascii_word c || isspace c) _ Hlow) as Hlow'.
  eapply Forall_impl; [apply Forall_and; split; [exact Hkeep | exact Hlow']|].
  intros c [Hk Hu] Hs. simpl in Hk. rewrite Hs, orb_false_r in Hk.
  unfold ascii_word in Hk. unfold slug_char. rewrite Hu in Hk. exact Hk.
Qed.

Lemma normalise_of_slug x :
  (∀ s, Forall (λ c, is_ascii c = true) s → nfkd s = s) →
  Forall (λ c, slug_char c = true) x →
  normalise x = strip_by (N.eqb underscore) x.
Proof.
  intros Hnfkd Hx.
  assert (∀ q : N → Prop, (∀ c, slug_char c = true → q c) → Forall q x) as Hall.
  { intros q Hq. eapply Forall_impl; [exact Hx | exact Hq]. }
  assert (nfkd x = x) as H1.
  { apply Hnfkd, Hall. intros c Hc. by apply slug_char_facts. }
  assert (List.filter is_ascii x = x) as H2.
  { apply filter_id, Hall. intros c Hc. by apply slug_char_facts. }
  assert (ascii_lower x = x) as H3.
  { apply ascii_lower_id, Hall. intros c Hc. by apply slug_char_facts. }
  assert (List.filter (λ c, ascii_word c || isspace c) x = x) as H4.
  { apply filter_id, Hall. intros c Hc.
    destruct (slug_char_facts c Hc) as (_ & _ & -> & _). done. }
  assert (sub_runs isspace [underscore] false x = x) as H5.
  { apply sub_runs_id, Hall. intros c Hc. by apply slug_char_facts. }
  unfold normalise, encode_ascii_ignore. by rewrite H1, H2, H3, H4, H5.
Qed.

Lemma normalise_punct x :
  (∀ s, Forall (λ c, is_ascii c = true) s → nfkd s = s) →
  Forall (λ c, punct_or_space c = true) x → normalise x = [].
Proof.
  intros Hnfkd Hx.
  assert (∀ q : N → Prop, (∀ c, punct_or_space c = true → q c) → Forall q x) as Hall.
  { intros q Hq. eapply Forall_impl; [exact Hx | exact Hq]. }
  assert (nfkd x = x) as H1.
  { apply Hnfkd, Hall. intros c Hc.
    unfold punct_or_space, is_punct, is_ascii in *. bool_to_prop; char_class. }
  assert (List.filter is_ascii x = x) as H2.
  { apply filter_id, Hall. intros c Hc.
    unfold punct_or_space, is_punct, is_ascii in *. bool_to_prop; char_class. }
  assert (ascii_lower x = x) as H3.
  { apply ascii_lower_id, Hall. intros c Hc.
    unfold punct_or_space, is_punct, is_ascii, isspace, is_upper in *.
    bool_to_prop; subst; char_class. }
  unfold normalise, strip_by, encode_ascii_ignore. rewrite H1, H2, H3.
  rewrite lstrip_by_all; [done|].
  apply sub_runs_Forall; [by repeat constructor|].
  pose proof (filter_holds (λ c, ascii_word c || isspace c) x) as Hkeep.
  pose proof (filter_Forall _ (λ c, ascii_word c || isspace c) _ Hx) as Hp.
  eapply Forall_impl; [apply Forall_and; split; [exact Hkeep | exact Hp]|].
  intros c [Hk Hc] Hs. simpl in Hk. rewrite Hs, orb_false_r in Hk.
  unfold punct_or_space in Hc. rewrite Hs, andb_false_r, orb_false_r in Hc.
  unfold ascii_word, is_punct, is_upper, is_lower, is_digit, underscore in *.
  bool_to_prop; subst; char_class.
Qed.

(** C3. The Text Normalizer is a total function on strings (it has no
    error result), it is idempotent, the empty string normalises to the
    empty string, and a string made only of ASCII punctuation and
    whitespace normalises to the empty string. NFKD is a parameter; all
    that is used of it is that it leaves ASCII text unchanged. *)
Theorem normalise_idempotent_total (x : str) :
  (∀ s, Forall (λ c, is_ascii c = true) s → nfkd s = s) →
  normalise (normalise x) = normalise x
  ∧ normalise [] = []
  ∧ (Forall (λ c, punct_or_space c = true) x → normalise x = []).
Proof.
  intros Hnfkd. split; [|split].
  - rewrite (normalise_of_slug (normalise x) Hnfkd (normalise_slug x)).
    unfold normalise. apply strip_by_idem.
  - apply normalise_punct; [done | constructor].
  - by apply normalise_punct.
Qed.

(** ** The Fuzzy Entity Matcher *)

Lemma startswith_spec pre s : startswith pre s = true ↔ ∃ post, s = pre ++ post.
Proof.
  revert s. induction pre as [|a pre IH]; intros s; simpl.
  - split; [intros _; by exists s | done].
  - destruct s as [|b s]; [split; [done | intros [post H]; discriminate]|].
    rewrite andb_true_iff, N.eqb_eq, IH. split.
    + intros [-> [post ->]]. by exists post.
    + intros [post H]. injection H as -> ->. split; [done | by exists post].
Qed.

Lemma contains_spec needle hay : contains needle hay = true ↔ substring needle hay.
Proof.
  unfold substring. induction hay as [|c hay IH]; simpl.
  - rewrite orb_false_r, startswith_spec. split.
    + intros [post H]. by exists [], post.
    + intros (pre & post & H). symmetry in H.
      apply app_eq_nil in H as [-> H]. apply app_eq_nil in H as [-> ->]. by exists [].
  - rewrite orb_true_iff, startswith_spec, IH. split.
    + intros [[post H] | (pre & post & H)].
      * by exists [], post.
      * exists (c :: pre), post. by rewrite H.
    + intros (pre & post & H). destruct pre as [|x pre].
      * left. by exists post.
      * right. injection H as -> ->. by exists pre, post.
Qed.

Lemma contains_empty hay : contains [] hay = true.
Proof. by destruct hay. Qed.

Lemma for_break_find cond logos : for_break cond logos None = List.find cond logos.
Proof. induction logos as [|l logos IH]; simpl; [done | by destruct (cond l)]. Qed.

Lemma find_filter {A} (p q : A → bool) l :
  List.find q (List.filter p l) = List.find (λ x, p x && q x) l.
Proof.
  induction l as [|x l IH]; simpl; [done|].
  destruct (p x); simpl; [by destruct (q x) | done].
Qed.

Lemma find_false {A} (p : A → bool) l : (∀ x, p x = false) → List.find p l = None.
Proof. intros H. induction l as [|x l IH]; simpl; [done | by rewrite H]. Qed.

Lemma find_none_iff {A} (p : A → bool) l :
  List.find p l = None ↔ ∀ x, x ∈ l → p x = false.
Proof.
  induction l as [|x l IH]; simpl.
  - split; [intros _ x Hx; by apply elem_of_nil in Hx | done].
  - destruct (p x) eqn:E.
    + split; [done|]. intros H. specialize (H x (list_elem_of_here _ _)). congruence.
    + rewrite IH. split.
      * intros H y Hy. apply elem_of_cons in Hy as [-> | Hy]; [done | by apply H].
      * intros H y Hy. apply H. by apply list_elem_of_further.
Qed.

(** The scoring loop, from any starting values of [best] and [best_score]:
    either nothing beats the starting score, or the result is the first
    candidate of the same group that attains the largest score. *)
Lemma for_score_spec (league : json) (T : gset str) (logos : list logo) (b : option logo) (s : nat) :
  let score l := size (T ∩ logo_tokens l) in
  (for_score league T logos b s = (b, s)
   ∧ ∀ l, l ∈ logos → same_league league l = true → (score l ≤ s)%nat)
  ∨ (∃ pre l post,
        logos = pre ++ l :: post
        ∧ for_score league T logos b s = (Some l, score l)
        ∧ same_league league l = true
        ∧ (s < score l)%nat
        ∧ (∀ l', l' ∈ pre → same_league league l' = true → (score l' < score l)%nat)
        ∧ (∀ l', l' ∈ post → same_league league l' = true → (score l' ≤ score l)%nat)).
Proof.
  intros score. revert b s.
  induction logos as [|x logos IH]; intros b s; simpl.
  - left. split; [done|]. intros l Hl. by apply elem_of_nil in Hl.
  - destruct (same_league league x) eqn:Hx; simpl.
    + fold (score x). destruct (s <? score x)%nat eqn:Hlt.
      * apply Nat.ltb_lt in Hlt.
        destruct (IH (Some x) (score x)) as [[Heq Hall] | (pre & l & post & -> & Heq & Hl & Hs & Hpre & Hpost)].
        -- right. exists [], x, logos. repeat split; try done.
           intros l' Hl'. by apply elem_of_nil in Hl'.
        -- right. exists (x :: pre), l, post. repeat split; try done; [lia|].
           intros l' Hl' Hsame. apply elem_of_cons in Hl' as [-> | Hl']; [done | by apply Hpre].
      * apply Nat.ltb_ge in Hlt.
        destruct (IH b s) as [[Heq Hall] | (pre & l & post & -> & Heq & Hl & Hs & Hpre & Hpost)].
        -- left. split; [done|]. intros l Hl Hsame.
           apply elem_of_cons in Hl as [-> | Hl]; [done | by apply Hall].
        -- right. exists (x :: pre), l, post. repeat split; try done.
           intros l' Hl' Hsame. apply elem_of_cons in Hl' as [-> | Hl']; [lia | by apply Hpre].
    + destruct (IH b s) as [[Heq Hall] | (pre & l & post & -> & Heq & Hl & Hs & Hpre & Hpost)].
      * left. split; [done|]. intros l Hl Hsame.
        apply elem_of_cons in Hl as [-> | Hl]; [congruence | by apply Hall].
      * right. exists (x :: pre), l, post. repeat split; try done.
        intros l' Hl' Hsame. apply elem_of_cons in Hl' as [-> | Hl']; [congruence | by apply Hpre].
Qed.

Lemma find_ext {A} (p q : A → bool) l :
  (∀ x, p x = q x) → List.find p l = List.find q l.
Proof. intros H. induction l as [|x l IH]; simpl; [done | by rewrite H, IH]. Qed.

Lemma find_first {A} (p : A → bool) pre x post :
  (∀ y, y ∈ pre → p y = false) → p x = true →
  List.find p (pre ++ x :: post) = Some x.
Proof.
  intros Hpre Hx. induction pre as [|y pre IH]; simpl; [by rewrite Hx|].
  rewrite (Hpre y) by apply list_elem_of_here.
  apply IH. intros z Hz. by apply Hpre, list_elem_of_further.
Qed.

Lemma max_list_bound ns m : (∀ n, n ∈ ns → (n ≤ m)%nat) → (max_list ns ≤ m)%nat.
Proof.
  induction ns as [|n ns IH]; simpl; intros H; [lia|].
  apply Nat.max_lub; [apply H, list_elem_of_here|].
  apply IH. intros k Hk. by apply H, list_elem_of_further.
Qed.

Lemma max_list_attained ns m :
  m ∈ ns → (∀ n, n ∈ ns → (n ≤ m)%nat) → max_list ns = m.
Proof.
  intros Hm Hle. apply Nat.le_antisymm; [by apply max_list_bound|].
  by apply max_list_elem_of_le.
Qed.

Lemma app_cons_eq_cases {A} (pre pre2 post post2 : list A) x y :
  pre ++ x :: post = pre2 ++ y :: post2 →
  (pre = pre2 ∧ x = y ∧ post = post2)
  ∨ (∃ k, pre2 = pre ++ x :: k ∧ post = k ++ y :: post2)
  ∨ (∃ k, pre = pre2 ++ y :: k ∧ post2 = k ++ x :: post).
Proof.
  revert pre2. induction pre as [|a pre IH]; intros [|b pre2]; simpl; intros H.
  - injection H as -> ->. by left.
  - injection H as -> ->. right; left. by exists pre2.
  - injection H as -> <-. right; right. by exists pre.
  - injection H as -> H. destruct (IH _ H) as [(-> & -> & ->) | [[k [-> ->]] | [k [-> ->]]]].
    + by left.
    + right; left. by exists k.
    + right; right. by exists k.
Qed.

(** The code's tier 4, started as the loop starts it, agrees with the
    specification's wording of it. *)
Lemma for_score_spec_agree (name : str) (league : json) (logos : list logo) :
  (let '(b, s) := for_score league (list_to_set (tokens name)) logos None 0 in
   if (s <? 1)%nat then None else b)
  = spec_token_overlap name league logos.
Proof.
  unfold spec_token_overlap.
  destruct (for_score_spec league (list_to_set (tokens name)) logos None 0)
    as [[Heq Hall] | (pre & l & post & -> & Heq & Hl & Hs & Hpre & Hpost)];
    rewrite Heq; simpl.
  - assert (max_list (overlap_score name <$> List.filter (same_league league) logos) = 0%nat)
      as ->; [|done].
    apply Nat.le_antisymm; [|lia]. apply max_list_bound. intros n Hn.
    apply list_elem_of_fmap in Hn as (l & -> & Hl).
    apply list_elem_of_In, filter_In in Hl as [Hl Hsame].
    apply Hall; [by apply list_elem_of_In | done].
  - fold (overlap_score name l) in *.
    destruct (overlap_score name l <? 1)%nat eqn:E; [apply Nat.ltb_lt in E; lia|].
    rewrite List.filter_app. simpl. rewrite Hl.
    assert (max_list (overlap_score name <$>
              (List.filter (same_league league) pre
               ++ l :: List.filter (same_league league) post))
            = overlap_score name l) as ->.
    { apply max_list_attained.
      - apply list_elem_of_fmap. exists l. split; [done|].
        apply elem_of_app. right. apply list_elem_of_here.
      - intros n Hn. apply list_elem_of_fmap in Hn as (x & -> & Hx).
        apply elem_of_app in Hx as [Hx | Hx].
        + apply list_elem_of_In, filter_In in Hx as [Hx Hsame].
          apply Nat.lt_le_incl, Hpre; [by apply list_elem_of_In | done].
        + apply elem_of_cons in Hx as [-> | Hx]; [done|].
          apply list_elem_of_In, filter_In in Hx as [Hx Hsame].
          apply Hpost; [by apply list_elem_of_In | done]. }
    rewrite E. symmetry. apply find_first; [|by apply Nat.eqb_eq].
    intros y Hy. apply list_elem_of_In, filter_In in Hy as [Hy Hsame].
    apply Nat.eqb_neq.
    specialize (Hpre y (proj2 (list_elem_of_In _ _) Hy) Hsame).
    unfold overlap_score in *. lia.
Qed.

(** C6. The token-overlap tier, entered with [best = None] and
    [best_score = 0] as the matching loop enters it, returns a candidate
    exactly when that candidate is of the target's group, shares at least
    one token with the target, no candidate of the group shares more, and
    every candidate of the group placed before it in the pool shares
    strictly fewer; it returns none exactly when no candidate of the group
    shares a token. The result is a function of the pool in its given
    order. *)
Theorem token_overlap_first_best (name : str) (league : json) (logos : list logo) :
  let st := tier_token_overlap (list_to_set (tokens name)) league logos
              {| best := None; best_score := 0; attempted := [] |} in
  (∀ l, best st = Some l ↔
        ∃ pre post,
          logos = pre ++ l :: post
          ∧ same_league league l = true
          ∧ (1 ≤ overlap_score name l)%nat
          ∧ (∀ l', l' ∈ pre → same_league league l' = true →
                   (overlap_score name l' < overlap_score name l)%nat)
          ∧ (∀ l', l' ∈ post → same_league league l' = true →
                   (overlap_score name l' ≤ overlap_score name l)%nat))
  ∧ (best st = None ↔
     ∀ l, l ∈ logos → same_league league l = true → overlap_score name l = 0%nat).
Proof.
  unfold tier_token_overlap; simpl.
  destruct (for_score_spec league (list_to_set (tokens name)) logos None 0)
    as [[Heq Hall] | (pre & l & post & Hlogos & Heq & Hl & Hs & Hpre & Hpost)];
    rewrite Heq; simpl.
  - split.
    + intros l. split; [done|].
      intros (pre & post & -> & Hl & Hs & _).
      assert (l ∈ pre ++ l :: post) as Hin
        by (apply elem_of_app; right; apply list_elem_of_here).
      specialize (Hall l Hin Hl). unfold overlap_score in Hs. lia.
    + split; [|done]. intros _ l Hin Hl.
      specialize (Hall l Hin Hl). unfold overlap_score. lia.
  - fold (overlap_score name l) in *.
    destruct (overlap_score name l <? 1)%nat eqn:E; [apply Nat.ltb_lt in E; lia|].
    simpl. split.
    + intros l2. split.
      * intros [= <-]. exists pre, post. repeat split; try done; lia.
      * intros (pre2 & post2 & H2 & Hl2 & Hs2 & Hpre2 & Hpost2).
        rewrite Hlogos in H2.
        destruct (app_cons_eq_cases _ _ _ _ _ _ H2)
          as [(_ & -> & _) | [[k [-> ->]] | [k [-> ->]]]]; [done| |].
        -- assert (l ∈ pre ++ l :: k) as Hin
             by (apply elem_of_app; right; apply list_elem_of_here).
           specialize (Hpre2 l Hin Hl).
           assert (l2 ∈ k ++ l2 :: post2) as Hin2
             by (apply elem_of_app; right; apply list_elem_of_here).
           specialize (Hpost l2 Hin2 Hl2). unfold overlap_score in *. lia.
        -- assert (l2 ∈ pre2 ++ l2 :: k) as Hin
             by (apply elem_of_app; right; apply list_elem_of_here).
           specialize (Hpre l2 Hin Hl2).
           assert (l ∈ k ++ l :: post) as Hin2
             by (apply elem_of_app; right; apply list_elem_of_here).
           specialize (Hpost2 l Hin2 Hl). unfold overlap_score in *. lia.
    + split; [done|]. intros H.
      assert (l ∈ logos) as Hin
        by (rewrite Hlogos; apply elem_of_app; right; apply list_elem_of_here).
      specialize (H l Hin Hl). lia.
Qed.

Lemma tier_containment_skip n lg logos st :
  is_some (best st) = true → tier_containment n lg logos st = st.
Proof. unfold tier_containment. by intros ->. Qed.

Lemma tier_base_name_skip n lg logos st :
  is_some (best st) = true → tier_base_name n lg logos st = st.
Proof. unfold tier_base_name. by intros ->. Qed.

Lemma tier_token_overlap_skip T lg logos st :
  is_some (best st) = true → tier_token_overlap T lg logos st = st.
Proof. unfold tier_token_overlap. by intros ->. Qed.

Lemma tier_base_name_find (name : str) (league : json) (logos : list logo) :
  for_break (λ l, same_league league l && nonempty (join [underscore] (tokens name))
                  && contains (join [underscore] (tokens name)) (logo_stem l))
            logos None
  = spec_tier BaseName name league logos.
Proof.
  rewrite for_break_find. unfold spec_tier. destruct (nonempty _).
  - rewrite find_filter. apply find_ext. intros x. by rewrite andb_true_r.
  - apply find_false. intros x. by rewrite andb_false_r.
Qed.

(** C1. The state the matching loop reaches is that of an ordered list of
    four strategies (exact stem, containment of the normalised name,
    containment of the joined filtered tokens when that string is not
    empty, token overlap) tried in that order and stopped at the first
    that yields a candidate of the target's group: [best] is that
    candidate, [attempted] lists the tiers up to and including it, and no
    later tier is entered. When no strategy yields a candidate, [best] is
    [None]; the loop has no error result. *)
Theorem tiers_in_order (name : str) (league : json) (logos : list logo) :
  let st := match_club name league logos in
  (best st, attempted st) = first_tier all_tiers [] name league logos.
Proof.
  unfold match_club, all_tiers, first_tier.
  unfold tier_exact. cbn [best best_score attempted app]. rewrite for_break_find.
  replace (List.find _ logos) with (spec_tier Exact name league logos)
    by (unfold spec_tier; apply find_filter).
  destruct (spec_tier Exact name league logos) as [l1|].
  { rewrite tier_containment_skip by done. rewrite tier_base_name_skip by done.
    rewrite tier_token_overlap_skip by done. reflexivity. }
  unfold tier_containment. cbn [best best_score attempted is_some app].
  rewrite for_break_find.
  replace (List.find _ logos) with (spec_tier Containment name league logos)
    by (unfold spec_tier; apply find_filter).
  destruct (spec_tier Containment name league logos) as [l2|].
  { rewrite tier_base_name_skip by done.
    rewrite tier_token_overlap_skip by done. reflexivity. }
  unfold tier_base_name. cbn [best best_score attempted is_some app].
  rewrite tier_base_name_find.
  destruct (spec_tier BaseName name league logos) as [l3|].
  { rewrite tier_token_overlap_skip by done. reflexivity. }
  unfold tier_token_overlap. cbn [best best_score attempted is_some app].
  change (spec_tier TokenOverlap name league logos)
    with (spec_token_overlap name league logos).
  rewrite <- for_score_spec_agree.
  destruct (for_score _ _ _ _ _) as [b s]. cbn [best attempted app].
  by destruct (if (s <? 1)%nat then None else b).
Qed.

(** A target whose normalised name is empty is matched by the containment
    tier with the first candidate of its group, since the empty string
    occurs in every stem. *)
Lemma empty_key_matches (name : str) (league : json) (logos : list logo) (l : logo) :
  normalise name = [] → l ∈ logos → same_league league l = true →
  is_some (resolve name league logos) = true.
Proof.
  intros Hn Hl Hsame. unfold resolve, match_club.
  unfold tier_exact. cbn [best best_score attempted app]. rewrite for_break_find.
  destruct (List.find _ logos) as [l1|].
  { rewrite tier_containment_skip by done. rewrite tier_base_name_skip by done.
    rewrite tier_token_overlap_skip by done. reflexivity. }
  unfold tier_containment. cbn [best best_score attempted is_some app].
  rewrite for_break_find.
  destruct (List.find _ logos) as [l2|] eqn:E2.
  { rewrite tier_base_name_skip by done.
    rewrite tier_token_overlap_skip by done. reflexivity. }
  exfalso. rewrite find_none_iff in E2. specialize (E2 l Hl). simpl in E2.
  by rewrite Hsame, Hn, contains_empty in E2.
Qed.

(** C10. An entry whose name or league is absent or the empty string is
    passed over: the step returns normally, the entry is appended as it
    was (no [logo] key is added), neither counter changes and nothing is
    printed; the pool of logos plays no part in the result. *)
Theorem entry_without_name_or_league_is_skipped
    (logos : list logo) (st : assign_state) (c : club) :
  missing_or_empty c (lit "name") ∨ missing_or_empty c (lit "league") →
  assign_club logos st c = Ok (skipped st c).
Proof.
  unfold assign_club, assign_club_with, dict_get, missing_or_empty, skipped.
  intros [[H | H] | [H | H]]; rewrite H; simpl; try reflexivity;
    by rewrite orb_true_r.
Qed.

(** ** The Alias Generator *)

Lemma elem_of_sorted_strs (S : gset str) (a : str) : a ∈ sorted_strs S ↔ a ∈ S.
Proof. unfold sorted_strs. by rewrite merge_sort_Permutation, elem_of_elements. Qed.

Lemma NoDup_sorted_strs (S : gset str) : NoDup (sorted_strs S).
Proof.
  unfold sorted_strs. rewrite merge_sort_Permutation. apply NoDup_elements.
Qed.

Lemma nonempty_true (s : str) : nonempty s = true ↔ s ≠ [].
Proof. by destruct s. Qed.

(** C4, as the code has it. The aliases are the distinct non-empty trimmed
    variants, in sorted order: the list has no duplicate and no empty
    string, every entry is a trimmed string, and the lower-cased name
    without its full stops, trimmed, is in the list whenever it is not
    empty (the list is then not empty). The Text Normalizer is not
    involved. *)
Theorem build_aliases_contains_trimmed_name (name : str) :
  let base := replace (lit ".") [] (unicode_lower name) in
  (strip base ≠ [] → strip base ∈ build_aliases name ∧ build_aliases name ≠ [])
  ∧ NoDup (build_aliases name)
  ∧ ([] ∉ build_aliases name)
  ∧ (∀ a, a ∈ build_aliases name → strip a = a).
Proof.
  forget_libs. intros base. unfold build_aliases. fold base.
  set (S := ((if (2 <=? _)%nat then _ else _) ∪ {[ replace (lit "&") (lit "and") base ]})).
  assert (base ∈ S) as Hbase.
  { unfold S. destruct (2 <=? _)%nat; set_solver. }
  assert (∀ a, a ∈ sorted_strs (set_map strip (filter (λ a, nonempty (strip a) = true) S))
               ↔ ∃ b, a = strip b ∧ b ∈ S ∧ strip b ≠ []) as Hin.
  { intros a. rewrite elem_of_sorted_strs, elem_of_map. split.
    - intros (b & -> & Hb). apply elem_of_filter in Hb as [Hne Hb].
      exists b. by rewrite <- nonempty_true.
    - intros (b & -> & Hb & Hne). exists b. split; [done|].
      apply elem_of_filter. by rewrite nonempty_true. }
  repeat split.
  - apply Hin. by exists base.
  - intros Hnil. assert (strip base ∈ ([] : list str)) as Habs.
    { rewrite <- Hnil. apply Hin. by exists base. }
    by apply elem_of_nil in Habs.
  - apply NoDup_sorted_strs.
  - intros Habs. apply Hin in Habs as (b & Hb & _ & Hne). by rewrite <- Hb in Hne.
  - intros a Ha. apply Hin in Ha as (b & -> & _). apply strip_by_idem.
Qed.

(** ** The Document Table Extractor *)

Lemma dedupe_fold (cands : list (str * str)) (acc : gset str * list (str * str)) :
  (fold_left dedupe_step cands acc).2 = acc.2 ++ dedupe_from acc.1 cands.
Proof.
  forget_libs.
  revert acc. induction cands as [|c cands IH]; intros [seen out]; simpl.
  - by rewrite app_nil_r.
  - rewrite IH. unfold dedupe_step. simpl.
    destruct (bool_decide (c.2 ∈ seen)); simpl; [done|].
    by rewrite <- app_assoc.
Qed.

Lemma dedupe_from_sublist (seen : gset str) (cands : list (str * str)) :
  dedupe_from seen cands `sublist_of` cands.
Proof.
  forget_libs.
  revert seen. induction cands as [|c cands IH]; intros seen; simpl; [constructor|].
  destruct (bool_decide (c.2 ∈ seen)); [apply sublist_cons | apply sublist_skip]; apply IH.
Qed.

Lemma dedupe_from_first (seen : gset str) (cands : list (str * str)) (name url : str) :
  (name, url) ∈ dedupe_from seen cands ↔
  (url ∉ seen) ∧ ∃ pre post, cands = pre ++ (name, url) :: post ∧ url ∉ pre.*2.
Proof.
  forget_libs.
  revert seen. induction cands as [|c cands IH]; intros seen; simpl.
  - split; [intros H; by apply elem_of_nil in H|].
    intros (_ & pre & post & H & _). by destruct pre.
  - destruct (bool_decide (c.2 ∈ seen)) eqn:E.
    + apply bool_decide_eq_true in E. rewrite IH. split.
      * intros (Hu & pre & post & -> & Hpre). split; [done|].
        exists (c :: pre), post. split; [done|].
        rewrite fmap_cons, not_elem_of_cons. split; [|done]. by intros ->.
      * intros (Hu & pre & post & H & Hpre). split; [done|].
        destruct pre as [|x pre]; simpl in H; injection H as -> Hc.
        -- done.
        -- exists pre, post. split; [done|].
           rewrite fmap_cons, not_elem_of_cons in Hpre. tauto.
    + apply bool_decide_eq_false in E. rewrite elem_of_cons, IH. split.
      * intros [<- | (Hu & pre & post & -> & Hpre)].
        -- split; [exact E|]. exists [], cands. split; [done|]. apply not_elem_of_nil.
        -- rewrite not_elem_of_union, not_elem_of_singleton in Hu. destruct Hu as [Hne Hu].
           split; [done|]. exists (c :: pre), post. split; [done|].
           rewrite fmap_cons, not_elem_of_cons. done.
      * intros (Hu & pre & post & H & Hpre).
        destruct pre as [|x pre]; simpl in H; injection H as -> Hc.
        -- by left.
        -- right. rewrite fmap_cons, not_elem_of_cons in Hpre. destruct Hpre as [Hne Hpre].
           split; [|by exists pre, post].
           rewrite not_elem_of_union, not_elem_of_singleton. done.
Qed.

Lemma dedupe_from_NoDup (seen : gset str) (cands : list (str * str)) :
  NoDup (dedupe_from seen cands).*2.
Proof.
  forget_libs.
  revert seen. induction cands as [|c cands IH]; intros seen; simpl; [constructor|].
  destruct (bool_decide (c.2 ∈ seen)); [apply IH|].
  rewrite fmap_cons. apply NoDup_cons. split; [|apply IH].
  intros Hin. apply list_elem_of_fmap in Hin as ([n u] & Hu & Hin). simpl in Hu. subst u.
  apply dedupe_from_first in Hin as [Hn _]. set_solver.
Qed.

Lemma dedupe_from_covers (seen : gset str) (cands : list (str * str)) (url : str) :
  url ∈ cands.*2 → url ∉ seen → url ∈ (dedupe_from seen cands).*2.
Proof.
  forget_libs.
  revert seen. induction cands as [|c cands IH]; intros seen; simpl.
  - intros H. by apply elem_of_nil in H.
  - rewrite elem_of_cons. intros Hin Hseen.
    destruct (bool_decide (c.2 ∈ seen)) eqn:E.
    + apply bool_decide_eq_true in E. destruct Hin as [-> | Hin]; [done | by apply IH].
    + rewrite fmap_cons, elem_of_cons.
      destruct (decide (url = c.2)) as [-> | Hne]; [by left | right].
      destruct Hin as [-> | Hin]; [done|]. apply IH; [done|].
      by rewrite not_elem_of_union, not_elem_of_singleton.
Qed.

(** C5. The extractor returns the candidate pairs (one per qualifying row,
    in document order) with every link kept once: the links of the result
    are pairwise distinct, the result is a subsequence of the candidates
    (encounter order is kept), it has the same links as the candidates,
    and a pair is in the result exactly when it is the first candidate
    with its link. *)
Theorem extract_entity_links_first_wins (soup : node) :
  let cands := candidates soup in
  let out := extract_entity_links soup in
  NoDup out.*2
  ∧ out `sublist_of` cands
  ∧ (∀ url, url ∈ out.*2 ↔ url ∈ cands.*2)
  ∧ (∀ name url,
       (name, url) ∈ out ↔
       ∃ pre post, cands = pre ++ (name, url) :: post ∧ url ∉ pre.*2).
Proof.
  forget_libs. intros cands out.
  assert (out = dedupe_from ∅ cands) as ->.
  { unfold out, extract_entity_links, dedupe_by_url. by rewrite dedupe_fold. }
  split; [apply dedupe_from_NoDup|]. split; [apply dedupe_from_sublist|]. split.
  - intros url. split.
    + intros H. eapply elem_of_sublist; [exact H|].
      apply fmap_sublist, dedupe_from_sublist.
    + intros H. apply dedupe_from_covers; [done | set_solver].
  - intros name url. rewrite dedupe_from_first. split; [tauto|].
    intros H. split; [set_solver | done].
Qed.

(** ** The Coordinate Extractor *)

Lemma extract_coords_fetched (url html : str) :
  nonempty url = true → http_fetch url = Ok html →
  extract_coords_from_wiki_page (Some url)
  = match find [lit "span"] (class_is (lit "geo")) (parse_html html) with
    | Some geo => catch (Some <$> parse_geo geo) (λ _, Ok None)
    | None => Ok None
    end.
Proof.
  intros Hne Hfetch. unfold extract_coords_from_wiki_page, http_get.
  rewrite Hne, Hfetch. simpl.
  destruct (find _ (class_is (lit "geo")) _);
    by destruct (find _ (class_is (lit "geo-dec")) _).
Qed.

(** C8. For a location document that was fetched: when the text of the
    coordinate marker is [51.508; -0.262] the result is the pair
    (51.508, -0.262); in general two semicolon-separated parts that
    [float] accepts give the pair of their values; any failure while
    parsing a found marker gives none, as do the texts [N/A],
    [51.508, -0.262] and [51.508; -0.262; 0]; a document without the
    marker gives none, whatever other markers it holds. No case raises. *)
Theorem coordinates_parse_or_none (url html : str) :
  nonempty url = true → http_fetch url = Ok html →
  let geo := find [lit "span"] (class_is (lit "geo")) (parse_html html) in
  let result := extract_coords_from_wiki_page (Some url) in
  (∀ g, geo = Some g → get_text [] g = lit "51.508; -0.262" →
        result = Ok (Some (PyFinite 51508 (-3), PyFinite (-262) (-3))))
  ∧ (∀ g a b lat lon, geo = Some g → split_on 59 (get_text [] g) = [a; b] →
        py_float (strip a) = Ok lat → py_float (strip b) = Ok lon →
        result = Ok (Some (lat, lon)))
  ∧ (∀ g e, geo = Some g → parse_geo g = Raise e → result = Ok None)
  ∧ (∀ g, geo = Some g →
        get_text [] g = lit "N/A" ∨ get_text [] g = lit "51.508, -0.262"
        ∨ get_text [] g = lit "51.508; -0.262; 0" →
        result = Ok None)
  ∧ (geo = None → result = Ok None).
Proof.
  intros Hne Hfetch geo result. unfold result, geo.
  rewrite (extract_coords_fetched url html Hne Hfetch).
  repeat split.
  - intros g -> Ht. unfold parse_geo. rewrite Ht. vm_compute. reflexivity.
  - intros g a b lat lon -> Hs Ha Hb. unfold parse_geo. rewrite Hs. simpl.
    by rewrite Ha, Hb.
  - intros g e -> Hg. by rewrite Hg.
  - intros g -> [Ht | [Ht | Ht]]; unfold parse_geo; rewrite Ht; vm_compute; reflexivity.
  - by intros ->.
Qed.

(** ** The Scraping Pipeline *)

Lemma round_half_even_bounds (m p lo hi : Z) :
  (0 < p)%Z → (lo * p ≤ m)%Z → (m ≤ hi * p)%Z →
  (lo ≤ round_half_even m p)%Z ∧ (round_half_even m p ≤ hi)%Z.
Proof.
  intros Hp Hlo Hhi. unfold round_half_even.
  pose proof (Z.div_mod m p ltac:(lia)) as Hdm.
  pose proof (Z.mod_pos_bound m p Hp) as Hr.
  assert (lo ≤ m / p)%Z by (apply Z.div_le_lower_bound; lia).
  assert (m / p ≤ hi)%Z by (apply Z.div_le_upper_bound; lia).
  assert (0 < m mod p → m / p < hi)%Z.
  { intros Hpos. destruct (Z.lt_ge_cases (m / p) hi) as [|Hge]; [done|].
    assert (p * hi ≤ p * (m / p))%Z by (apply Z.mul_le_mono_nonneg_l; lia). lia. }
  destruct (2 * (m mod p) <? p)%Z eqn:E1; [lia|].
  apply Z.ltb_ge in E1.
  destruct (p <? 2 * (m mod p))%Z; [lia|].
  destruct (Z.even (m / p)); lia.
Qed.

Lemma log2_floor_ratio_le (n d : Z) :
  (0 < n)%Z → (0 < d)%Z → (n ≤ d * 2 ^ 52)%Z → (log2_floor_ratio n d ≤ 52)%Z.
Proof.
  intros Hn Hd Hle. unfold log2_floor_ratio.
  assert (Z.log2 n ≤ 52 + Z.log2 d)%Z.
  { rewrite <- Z.log2_mul_pow2 by lia. by apply Z.log2_le_mono. }
  destruct (_ <=? _)%Z; lia.
Qed.

(** A ratio of at most [2^52] is rounded on a grid of step [2^q] with
    [q <= 0] and is never an infinity. *)
Lemma nearest_binary64_small (n d : Z) :
  (0 < n)%Z → (0 < d)%Z → (n ≤ d * 2 ^ 52)%Z →
  ∃ q, (q ≤ 0)%Z
       ∧ nearest_binary64 n d = Some (round_half_even (n * 2 ^ (- q)) d, q).
Proof.
  intros Hn Hd Hle. unfold nearest_binary64.
  pose proof (log2_floor_ratio_le n d Hn Hd Hle) as He.
  set (q := Z.max (log2_floor_ratio n d - 52) (-1074)).
  assert (q ≤ 0)%Z as Hq by lia.
  exists q. split; [done|].
  rewrite (Z.max_l (- q) 0), (Z.max_r q 0) by lia.
  replace (0 <? q)%Z with false by (symmetry; apply Z.ltb_ge; lia).
  simpl. by rewrite Z.mul_1_r.
Qed.

(** A numeral with six decimals between the integers [lo] and [hi] denotes
    a float between them. *)
Lemma decimal_in_interval (lo hi k : Z) :
  (- 2 ^ 52 ≤ lo)%Z → (hi ≤ 2 ^ 52)%Z →
  (lo * 1000000 ≤ k)%Z → (k ≤ hi * 1000000)%Z →
  in_interval lo hi (PyFinite k (-6)) = true.
Proof.
  intros Hlo Hhi Hl Hh. unfold in_interval, binary64_of_decimal.
  destruct (Z.eqb_spec k 0) as [-> | Hk].
  { simpl. rewrite andb_true_iff, !Z.leb_le. lia. }
  change (10 ^ Z.max (-6) 0)%Z with 1%Z. change (10 ^ Z.max (- -6) 0)%Z with 1000000%Z.
  rewrite Z.mul_1_r.
  destruct (nearest_binary64_small (Z.abs k) 1000000) as (q & Hq & ->); [lia | lia | lia |].
  rewrite (Z.max_l (- q) 0), (Z.max_r q 0) by lia. rewrite Z.mul_1_r.
  assert (0 < 2 ^ (- q))%Z as Hp by (apply Z.pow_pos_nonneg; lia).
  rewrite andb_true_iff, !Z.leb_le.
  destruct (Z.lt_ge_cases k 0) as [Hneg | Hpos].
  - rewrite (Z.abs_neq k), (Z.sgn_neg k) by lia.
    destruct (round_half_even_bounds (- k * 2 ^ (- q)) 1000000
                (- hi * 2 ^ (- q)) (- lo * 2 ^ (- q))) as [H1 H2]; [lia | nia | nia |].
    lia.
  - rewrite (Z.abs_eq k), (Z.sgn_pos k) by lia.
    destruct (round_half_even_bounds (k * 2 ^ (- q)) 1000000
                (lo * 2 ^ (- q)) (hi * 2 ^ (- q))) as [H1 H2]; [lia | nia | nia |].
    lia.
Qed.

Lemma py_round_interval (lo hi : Z) (x : pyfloat) :
  (- 2 ^ 52 ≤ lo)%Z → (hi ≤ 2 ^ 52)%Z →
  in_interval lo hi x = true → in_interval lo hi (py_round x 6) = true.
Proof.
  intros Hlo Hhi. destruct x as [m e| | |]; try done.
  unfold py_round. change (323 <? 6) with false. cbn iota.
  intros Hin. pose proof Hin as Hin'. unfold in_interval in Hin'.
  destruct (binary64_of_decimal m e) as [[M q]|]; [|done].
  apply andb_true_iff in Hin' as [H1 H2]. apply Z.leb_le in H1, H2.
  change (Z.of_N 6) with 6%Z. change (10 ^ 6)%Z with 1000000%Z.
  assert (0 < 2 ^ Z.max (- q) 0)%Z as Hp by (apply Z.pow_pos_nonneg; lia).
  destruct (round_half_even_bounds (M * 1000000 * 2 ^ Z.max q 0) (2 ^ Z.max (- q) 0)
              (lo * 1000000) (hi * 1000000)) as [Hk1 Hk2]; [done | lia | lia |].
  set (k := round_half_even (M * 1000000 * 2 ^ Z.max q 0) (2 ^ Z.max (- q) 0)) in *.
  cbn zeta. destruct (Z.eqb_spec k 0) as [Hk | _]; [destruct (m <? 0)%Z|]; cbn [andb].
  - unfold in_interval. rewrite andb_true_iff, !Z.leb_le. lia.
  - by apply decimal_in_interval.
  - by apply decimal_in_interval.
Qed.

Lemma preserves_ret {A} (I : run_state → Prop) (a : A) : preserves I (io_ret a).
Proof. by intros st. Qed.

Lemma preserves_call {A} (I : run_state → Prop) (r : result A) : preserves I (call r).
Proof. by intros st. Qed.

Lemma preserves_bind {A B} (I : run_state → Prop) (m : io A) (k : A → io B) :
  preserves I m → (∀ a, preserves I (k a)) → preserves I (io_bind m k).
Proof.
  intros Hm Hk st Hst. unfold io_bind. specialize (Hm st Hst).
  destruct (m st) as [[a|e] st']; simpl in *; [by apply Hk | done].
Qed.

Lemma preserves_catch {A} (I : run_state → Prop) (m : io A) (h : exn → io A) :
  preserves I m → (∀ e, preserves I (h e)) → preserves I (io_catch m h).
Proof.
  intros Hm Hh st Hst. unfold io_catch. specialize (Hm st Hst).
  destruct (m st) as [[a|e] st']; simpl in *; [done | by apply Hh].
Qed.

Lemma preserves_for_each {A} (I : run_state → Prop) (body : A → io unit) items :
  (∀ x, preserves I (body x)) → preserves I (for_each body items).
Proof.
  intros Hbody. induction items as [|x items IH]; simpl.
  - apply preserves_ret.
  - apply preserves_bind; [apply Hbody | intros _; apply IH].
Qed.

Lemma preserves_print (P : club_record → Prop) (line : str) :
  preserves (all_records P) (print line).
Proof. by intros st. Qed.

Lemma preserves_store (P : club_record → Prop) (id : str) (r : club_record) :
  P r → preserves (all_records P) (store id r).
Proof.
  intros Hr st Hst id' r'. simpl. rewrite lookup_insert.
  destruct (decide (id = id')); [by intros [= <-] | apply Hst].
Qed.

Lemma preserves_bind_call {A B} (I : run_state → Prop) (r : result A) (k : A → io B) :
  (∀ a, r = Ok a → preserves I (k a)) → preserves I (io_bind (call r) k).
Proof.
  intros Hk st Hst. unfold io_bind, call.
  destruct r as [a|e]; simpl; [by apply Hk | done].
Qed.

Lemma club_body_from_marker lg club_name club_url club_id :
  preserves (all_records from_marker) (club_body lg club_name club_url club_id).
Proof.
  unfold club_body. apply preserves_bind; [apply preserves_call|].
  intros [[ground_name ground_url]|]; [|apply preserves_print].
  apply preserves_bind_call. intros [[lat lon]|] Hc; [|apply preserves_print].
  apply preserves_bind; [|intros; apply preserves_print].
  apply preserves_store. exists lat, lon. simpl.
  destruct (nonempty (default [] ground_url)); [|done].
  repeat split; try done; by apply py_round_interval.
Qed.

Lemma process_club_from_marker lg link :
  preserves (all_records from_marker) (process_club lg link).
Proof.
  destruct link as [club_name club_url]. unfold process_club.
  apply preserves_catch; [apply club_body_from_marker|].
  intros e. unfold club_handler. destruct e; apply preserves_print.
Qed.

Lemma process_league_from_marker lg :
  preserves (all_records from_marker) (process_league lg).
Proof.
  unfold process_league. apply preserves_bind; [apply preserves_print|]. intros _.
  apply preserves_bind; [apply preserves_call|]. intros [|link links].
  - apply preserves_print.
  - apply preserves_bind; [apply preserves_print|]. intros _.
    apply preserves_for_each. intros x. apply process_club_from_marker.
Qed.

(** C9, as the code has it. Every record [main] emits carries the two
    numbers read from the marker of its ground page, each rounded to six
    decimals; its latitude lies in [[-90, 90]] when the latitude read
    does, and its longitude in [[-180, 180]] when the longitude read
    does. The pipeline itself checks no range. *)
Theorem records_carry_marker_coordinates
    (leagues : list league_desc) (final : list club_record) (st' : run_state)
    (r : club_record) :
  main_on leagues initial_state = (Ok final, st') → r ∈ final → from_marker r.
Proof.
  unfold main_on, io_bind. intros Hrun Hr.
  pose proof (preserves_for_each (all_records from_marker) process_league leagues
                process_league_from_marker initial_state) as Hinv.
  destruct (for_each process_league leagues initial_state) as [[[]|e] st1]; [|done].
  injection Hrun as <- <-. simpl in Hinv.
  rewrite merge_sort_Permutation in Hr.
  apply list_elem_of_fmap in Hr as ([id r'] & -> & Hr).
  apply elem_of_map_to_list in Hr. eapply Hinv; [|exact Hr].
  intros id' r0 H0. simpl in H0. by rewrite lookup_empty in H0.
Qed.

(** ** Failures while one club is handled *)

(** A failed fetch of the club page or of the ground page leaves the body
    of the [try] before anything is printed or stored. *)
Lemma club_body_fetch_failure out lg club_name club_url club_id st e :
  http_fetch club_url = Raise e
  ∨ (∃ ground_name ground_url,
        find_home_ground_link club_url = Ok (Some (ground_name, Some ground_url))
        ∧ nonempty ground_url = true
        ∧ http_fetch ground_url = Raise e) →
  club_body_with out lg club_name club_url club_id st = (Raise e, st).
Proof.
  unfold club_body_with, io_bind, call. intros [Hf | (g & u & Hg & Hu & Hf)].
  - unfold find_home_ground_link, http_get. by rewrite Hf.
  - rewrite Hg. change (default [] (Some u)) with u. rewrite Hu.
    unfold extract_coords_from_wiki_page, http_get. by rewrite Hu, Hf.
Qed.

Lemma print_console_accepted line st :
  encode_failure line = None → print_console line st = (Ok tt, logged st line).
Proof. unfold print_console. by intros ->. Qed.

Lemma print_console_dict line st : all_clubs (print_console line st).2 = all_clubs st.
Proof. unfold print_console. by destruct (encode_failure line). Qed.

(** On a standard output that accepts every line the two iterations are
    the same. *)
Lemma process_club_console_accepting lg link st :
  (∀ line, encode_failure line = None) →
  process_club_console lg link st = process_club lg link st.
Proof.
  intros Hacc.
  assert (∀ line st0, print_console line st0 = print line st0) as Hpr.
  { intros line st0. unfold print_console. by rewrite Hacc. }
  destruct link as [club_name club_url].
  unfold process_club_console, process_club, process_club_with, io_catch.
  assert (club_body_with print_console lg club_name club_url (slugify club_name) st
          = club_body_with print lg club_name club_url (slugify club_name) st) as ->.
  { unfold club_body_with, io_bind.
    destruct (call (find_home_ground_link club_url) st) as [[[[g u]|]|e] st1];
      [|apply Hpr|done].
    destruct (call _ st1) as [[[[lat lon]|]|e] st2]; [|apply Hpr|done].
    destruct (store _ _ st2) as [[[]|e] st3]; [apply Hpr|done]. }
  destruct (club_body_with print _ _ _ _ st) as [[[]|e] st1]; [done|].
  unfold club_handler_with. apply Hpr.
Qed.

(** Handling one club returns normally when standard output accepts every
    line. *)
Lemma process_club_console_returns lg link st :
  (∀ line, encode_failure line = None) →
  ∃ st', process_club_console lg link st = (Ok tt, st').
Proof.
  intros Hacc. destruct link as [club_name club_url].
  unfold process_club_console, process_club_with, io_catch.
  destruct (club_body_with _ _ _ _ _ st) as [[[]|e] st1]; [by eexists|].
  unfold club_handler_with. rewrite print_console_accepted by apply Hacc. by eexists.
Qed.

(** C2, as the code has it. When fetching a club's page or its ground
    page fails, the failure is caught and the dict of records is as it
    was. The line that reports the failure is printed by the [except]
    clause, outside any [try]: when standard output accepts that line,
    handling the club returns normally with that one line printed, and
    the loop goes on with the clubs that remain. On a standard output that
    accepts every line the loop over a league's clubs never raises. *)
Theorem club_failure_is_isolated
    (lg : league_desc) (club_name club_url : str) (rest : list (str * str))
    (st : run_state) (e : exn) :
  http_fetch club_url = Raise e
  ∨ (∃ ground_name ground_url,
        find_home_ground_link club_url = Ok (Some (ground_name, Some ground_url))
        ∧ nonempty ground_url = true
        ∧ http_fetch ground_url = Raise e) →
  all_clubs (process_club_console lg (club_name, club_url) st).2 = all_clubs st
  ∧ (encode_failure (line_failure club_name e) = None →
       process_club_console lg (club_name, club_url) st
       = (Ok tt, logged st (line_failure club_name e))
       ∧ for_each (process_club_console lg) ((club_name, club_url) :: rest) st
         = for_each (process_club_console lg) rest
             (logged st (line_failure club_name e)))
  ∧ ((∀ line, encode_failure line = None) →
       ∀ links st0, ∃ st1,
         for_each (process_club_console lg) links st0 = (Ok tt, st1)).
Proof.
  intros Hfail.
  assert (process_club_console lg (club_name, club_url) st
          = print_console (line_failure club_name e) st) as Hstep.
  { unfold process_club_console, process_club_with, io_catch.
    by rewrite (club_body_fetch_failure _ _ _ _ _ _ e Hfail). }
  split; [|split].
  - rewrite Hstep. apply print_console_dict.
  - intros Hline. rewrite print_console_accepted in Hstep by done.
    split; [done|]. cbn [for_each]. unfold io_bind at 1. by rewrite Hstep.
  - intros Hacc links. induction links as [|link links IH]; intros st0;
      cbn [for_each]; [by eexists|].
    unfold io_bind at 1.
    destruct (process_club_console_returns lg link st0 Hacc) as [st1 ->]. apply IH.
Qed.

(** ** Further properties of the normaliser and the token list *)

Lemma lstrip_by_head p s c r : lstrip_by p s = c :: r → p c = false.
Proof.
  induction s as [|x s IH]; simpl; [done|].
  destruct (p x) eqn:E; [done|]. by intros [= <- _].
Qed.

Lemma rstrip_by_last p s c : last (rstrip_by p s) = Some c → p c = false.
Proof.
  induction s as [|x s IH]; simpl; [done|].
  destruct (rstrip_by p s) as [|y r] eqn:E.
  - destruct (p x) eqn:Hx; simpl; [done|]. by intros [= <-].
  - intros H. apply IH. exact H.
Qed.

Lemma strip_by_ends p s c :
  head (strip_by p s) = Some c ∨ last (strip_by p s) = Some c → p c = false.
Proof.
  unfold strip_by. intros [H | H]; [|by eapply rstrip_by_last].
  destruct (lstrip_by p s) as [|x r] eqn:E; [done|].
  pose proof (lstrip_by_head _ _ _ _ E) as Hx.
  rewrite rstrip_by_keep in H by done. simpl in H. by injection H as <-.
Qed.

(** X1. A normalised string is made of the characters [[a-z0-9_]] only and
    neither starts nor ends with an underscore. *)
Theorem normalise_is_a_slug (x : str) :
  Forall (λ c, slug_char c = true) (normalise x)
  ∧ head (normalise x) ≠ Some underscore
  ∧ last (normalise x) ≠ Some underscore.
Proof.
  split; [apply normalise_slug|].
  split; intros H;
    [pose proof (strip_by_ends (N.eqb underscore) _ underscore (or_introl H)) as E
    |pose proof (strip_by_ends (N.eqb underscore) _ underscore (or_intror H)) as E];
    by rewrite N.eqb_refl in E.
Qed.

Lemma split_on_cons sep s : ∃ w ws, split_on sep s = w :: ws.
Proof.
  destruct s as [|c s]; simpl; [by eexists _, _|].
  destruct (c =? sep); [by eexists _, _|].
  destruct (split_on sep s); by eexists _, _.
Qed.

Lemma split_on_parts (P : N → Prop) sep s w :
  Forall P s → w ∈ split_on sep s → Forall (λ c, P c ∧ c ≠ sep) w.
Proof.
  intros Hs. revert w. induction Hs as [|c s Hc Hs IH]; intros w; simpl.
  - intros Hw. apply list_elem_of_singleton in Hw as ->. constructor.
  - destruct (N.eqb_spec c sep) as [-> | Hne].
    + intros Hw. apply elem_of_cons in Hw as [-> | Hw]; [constructor | by apply IH].
    + destruct (split_on sep s) as [|w0 ws] eqn:E.
      * intros Hw. apply list_elem_of_singleton in Hw as ->. by repeat constructor.
      * intros Hw. apply elem_of_cons in Hw as [-> | Hw].
        -- constructor; [done|]. apply IH, list_elem_of_here.
        -- by apply IH, list_elem_of_further.
Qed.

(** X2. Every token is a non-empty word over [[a-z0-9]] (it holds no
    underscore) and is not a stop word. *)
Theorem tokens_are_words (text t : str) :
  t ∈ tokens text →
  t ≠ [] ∧ (t ∉ STOPWORDS) ∧ Forall (λ c, is_lower c || is_digit c = true) t.
Proof.
  unfold tokens. intros Ht. apply list_elem_of_In, filter_In in Ht as [Ht Hkeep].
  apply andb_true_iff in Hkeep as [Hne Hstop].
  split; [by destruct t|]. split.
  - apply negb_true_iff, bool_decide_eq_false in Hstop. exact Hstop.
  - apply list_elem_of_In in Ht.
    pose proof (split_on_parts _ underscore _ t (normalise_slug text) Ht) as Hw.
    eapply Forall_impl; [exact Hw|]. intros c [Hc Hu]. simpl in Hc.
    unfold slug_char in Hc. apply orb_true_iff in Hc as [Hc | Hc]; [done|].
    by apply N.eqb_eq in Hc.
Qed.

(** ** Further properties of the matcher *)

Lemma for_break_sound (Q : logo → Prop) cond logos b l :
  (∀ x, x ∈ logos → cond x = true → Q x) →
  (∀ x, b = Some x → Q x) →
  for_break cond logos b = Some l → Q l.
Proof.
  intros Hcond Hb. induction logos as [|x logos IH]; simpl; [by apply Hb|].
  destruct (cond x) eqn:E.
  - intros [= <-]. apply Hcond; [apply list_elem_of_here | done].
  - apply IH. intros y Hy. by apply Hcond, list_elem_of_further.
Qed.

Lemma for_break_keep cond logos b :
  (∀ x, x ∈ logos → cond x = false) → for_break cond logos b = b.
Proof.
  induction logos as [|x logos IH]; simpl; intros H; [done|].
  rewrite (H x) by apply list_elem_of_here.
  apply IH. intros y Hy. by apply H, list_elem_of_further.
Qed.

Lemma for_score_keep (league : json) (T : gset str) (logos : list logo)
    (b : option logo) (s : nat) :
  (∀ x, x ∈ logos → same_league league x = false ∨ size (T ∩ logo_tokens x) = 0%nat) →
  for_score league T logos b s = (b, s).
Proof.
  revert b s. induction logos as [|x logos IH]; intros b s H; simpl; [done|].
  assert (∀ y, y ∈ logos →
               same_league league y = false ∨ size (T ∩ logo_tokens y) = 0%nat) as H'.
  { intros y Hy. by apply H, list_elem_of_further. }
  destruct (H x (list_elem_of_here _ _)) as [-> | Hz]; simpl; [by apply IH|].
  destruct (same_league league x); simpl; [|by apply IH].
  rewrite Hz. destruct (s <? 0)%nat eqn:E; [apply Nat.ltb_lt in E; lia|]. by apply IH.
Qed.

Lemma for_score_sound (league : json) (T : gset str) (logos : list logo)
    (b : option logo) (s : nat) (l : logo) :
  (for_score league T logos b s).1 = Some l →
  b = Some l ∨ (l ∈ logos ∧ same_league league l = true).
Proof.
  destruct (for_score_spec league T logos b s)
    as [[Heq _] | (pre & x & post & -> & Heq & Hx & _)]; rewrite Heq; simpl.
  - by left.
  - intros [= <-]. right. split; [|done].
    apply elem_of_app. right. apply list_elem_of_here.
Qed.

Lemma resolve_sound (name : str) (league : json) (logos : list logo) (l : logo) :
  resolve name league logos = Some l → l ∈ logos ∧ same_league league l = true.
Proof.
  unfold resolve, match_club.
  set (Q := λ x : logo, x ∈ logos ∧ same_league league x = true).
  assert (∀ st, (∀ x, best st = Some x → Q x) →
                ∀ x, best (tier_containment (normalise name) league logos st) = Some x → Q x)
    as H2.
  { intros st Hst x. unfold tier_containment. destruct (is_some (best st)); [apply Hst|].
    simpl. apply for_break_sound; [|exact Hst].
    intros y Hy Hc. apply andb_true_iff in Hc as [Hc _]. by split. }
  assert (∀ st, (∀ x, best st = Some x → Q x) →
                ∀ x, best (tier_base_name name league logos st) = Some x → Q x) as H3.
  { intros st Hst x. unfold tier_base_name. destruct (is_some (best st)); [apply Hst|].
    simpl. apply for_break_sound; [|exact Hst].
    intros y Hy Hc. apply andb_true_iff in Hc as [Hc _].
    apply andb_true_iff in Hc as [Hc _]. by split. }
  assert (∀ T st, (∀ x, best st = Some x → Q x) →
                  ∀ x, best (tier_token_overlap T league logos st) = Some x → Q x) as H4.
  { intros T st Hst x. unfold tier_token_overlap. destruct (is_some (best st)); [apply Hst|].
    pose proof (for_score_sound league T logos (best st) (best_score st) x) as Hs.
    destruct (for_score _ _ _ _ _) as [b s]. simpl in *.
    destruct (s <? 1)%nat; [done|]. intros Hb.
    destruct (Hs Hb) as [Hold | Hnew]; [by apply Hst | done]. }
  apply H4, H3, H2. intros x. unfold tier_exact. simpl.
  apply for_break_sound; [|done].
  intros y Hy Hc. apply andb_true_iff in Hc as [Hc _]. by split.
Qed.

(** X3. A logo the matcher returns is one of the pool and lies in the
    directory of the target's league. *)
Theorem resolve_in_pool_and_league (name : str) (league : json) (logos : list logo)
    (l : logo) :
  resolve name league logos = Some l → l ∈ logos ∧ same_league league l = true.
Proof. apply resolve_sound. Qed.

(** X4. When the pool holds no logo of the target's league (in particular
    when the league is not a string, or the pool is empty) the matcher
    returns none. *)
Theorem resolve_none_without_league_logo (name : str) (league : json)
    (logos : list logo) :
  (∀ l, l ∈ logos → same_league league l = false) →
  resolve name league logos = None.
Proof.
  intros H. unfold resolve, match_club, tier_exact. simpl.
  rewrite for_break_keep by (intros x Hx; by rewrite (H x Hx)).
  unfold tier_containment. simpl.
  rewrite for_break_keep by (intros x Hx; by rewrite (H x Hx)).
  unfold tier_base_name. simpl.
  rewrite for_break_keep by (intros x Hx; by rewrite (H x Hx)).
  unfold tier_token_overlap. simpl.
  rewrite for_score_keep by (intros x Hx; left; by apply H). done.
Qed.

(** X5. A name whose words are all stop words (its token list is empty)
    can only be matched by the exact tier or the containment tier: the
    result is the first logo of the league with the normalised name as its
    stem, else the first whose stem contains it, else none. *)
Theorem stop_word_name_uses_two_tiers (name : str) (league : json)
    (logos : list logo) :
  tokens name = [] →
  resolve name league logos
  = match spec_tier Exact name league logos with
    | Some l => Some l
    | None => spec_tier Containment name league logos
    end.
Proof.
  intros Ht. unfold resolve, match_club.
  unfold tier_exact. cbn [best best_score attempted app]. rewrite for_break_find.
  replace (List.find _ logos) with (spec_tier Exact name league logos)
    by (unfold spec_tier; apply find_filter).
  destruct (spec_tier Exact name league logos) as [l1|].
  { rewrite tier_containment_skip by done. rewrite tier_base_name_skip by done.
    rewrite tier_token_overlap_skip by done. reflexivity. }
  unfold tier_containment. cbn [best best_score attempted is_some app].
  rewrite for_break_find.
  replace (List.find _ logos) with (spec_tier Containment name league logos)
    by (unfold spec_tier; apply find_filter).
  destruct (spec_tier Containment name league logos) as [l2|].
  { rewrite tier_base_name_skip by done.
    rewrite tier_token_overlap_skip by done. reflexivity. }
  unfold tier_base_name. cbn [best best_score attempted is_some app].
  rewrite Ht. simpl join. cbn [nonempty].
  rewrite for_break_keep by (intros x _; by rewrite andb_false_r).
  unfold tier_token_overlap. cbn [best best_score attempted is_some app].
  rewrite for_score_keep; [done|].
  intros x _. right. simpl. rewrite intersection_empty_l_L. apply size_empty.
Qed.

Lemma assign_club_step (logos : list logo) (st st1 : assign_state) (c : club) :
  assign_club logos st c = Ok st1 →
  ∃ c', clubs_out st1 = clubs_out st ++ [c']
        ∧ written_back logos c c'
        ∧ (matched st1 + missing st1
           = matched st + missing st + (if considered c then 1 else 0))%nat.
Proof.
  unfold assign_club, assign_club_with, report. fold (considered c).
  replace (negb (truthy (dict_get c (lit "name"))) || negb (truthy (dict_get c (lit "league"))))
    with (negb (considered c))
    by (unfold considered; by rewrite negb_andb).
  destruct (considered c); simpl.
  - destruct (dict_get c (lit "name")) as [| | | |name| |]; try done.
    destruct (resolve name (dict_get c (lit "league")) logos) as [l|] eqn:E;
      intros [= <-]; simpl; eexists; (split; [reflexivity|]); split; try lia.
    + right. exists l. split; [|done]. by eapply resolve_sound.
    + by left.
  - intros [= <-]. simpl. exists c. split; [done|]. split; [by left | lia].
Qed.

(** X6. When the loop over [clubs] completes, the list written back has
    one entry per input entry, in the same order, each either unchanged or
    with only its [logo] key set, to the path of a logo of the pool; and
    [matched + missing] has grown by the number of entries whose name and
    league are both truthy. *)
Theorem assign_clubs_accounts_for_every_entry
    (logos : list logo) (st st' : assign_state) (clubs : list club) :
  assign_clubs logos st clubs = Ok st' →
  ∃ outs,
    clubs_out st' = clubs_out st ++ outs
    ∧ Forall2 (written_back logos) clubs outs
    ∧ (matched st' + missing st'
       = matched st + missing st + length (List.filter considered clubs))%nat.
Proof.
  unfold assign_clubs. revert st. induction clubs as [|c clubs IH]; intros st; simpl.
  - intros [= <-]. exists []. rewrite app_nil_r. repeat split; [constructor | lia].
  - unfold mbind, result_bind, bind. fold (assign_club logos st c).
    destruct (assign_club logos st c) as [st1|e] eqn:E1; [|done].
    intros Hrest. destruct (assign_club_step _ _ _ _ E1) as (c' & Hout & Hw & Hn).
    destruct (IH _ Hrest) as (outs & Hout' & Hall & Hn').
    exists (c' :: outs). rewrite Hout', Hout, <- app_assoc. split; [done|].
    split; [by constructor|].
    destruct (considered c); simpl; lia.
Qed.

(** On a standard output that accepts every line the two loops are the
    same, and an entry is passed exactly when its name is usable. *)
Lemma assign_clubs_console_accepting
    (logos : list logo) (st : assign_state) (clubs : list club) :
  (∀ line, encode_failure line = None) →
  assign_clubs_console logos st clubs = assign_clubs logos st clubs.
Proof.
  intros Hacc. unfold assign_clubs_console, assign_clubs.
  assert (∀ c st0, assign_club_with report_console logos st0 c
                   = assign_club_with report logos st0 c) as Hstep.
  { intros c st0. unfold assign_club_with, report_console.
    destruct (negb _ || negb _); [done|].
    destruct (dict_get c (lit "name")); try done.
    destruct (resolve _ _ _); by rewrite Hacc. }
  revert st. induction clubs as [|c clubs IH]; intros st; simpl; [done|].
  rewrite Hstep. unfold mbind, result_bind, bind.
  destruct (assign_club_with report logos st c); [apply IH|done].
Qed.

Lemma passes_accepting (logos : list logo) (c : club) :
  (∀ line, encode_failure line = None) → passes logos c = name_usable c.
Proof.
  intros Hacc. unfold passes, name_usable, report_line.
  destruct (dict_get c (lit "name")); try done.
  by rewrite Hacc.
Qed.

(** One entry on the standard output described by [encode_failure]: it
    is passed exactly when the loop skips it, or its name is a string and
    its line is accepted. *)
Lemma assign_club_console_passes (logos : list logo) (st : assign_state) (c : club) :
  (passes logos c = true → ∃ st1, assign_club_console logos st c = Ok st1)
  ∧ (passes logos c = false →
       ∃ e, assign_club_console logos st c = Raise e
            ∧ (e = TypeError ∨ ∃ msg, e = UnicodeEncodeError msg)).
Proof.
  unfold passes, report_line, assign_club_console, assign_club_with, considered.
  rewrite <- negb_andb.
  destruct (truthy (dict_get c (lit "name")) && truthy (dict_get c (lit "league")));
    cbn [negb orb]; [|split; [by eexists|done]].
  destruct (dict_get c (lit "name")) as [| | | |name| |];
    try (split; [done|]; intros _; exists TypeError; split; [done|by left]).
  unfold report_console, report.
  destruct (resolve name (dict_get c (lit "league")) logos) as [b|];
    match goal with
    | |- context [encode_failure ?line] => destruct (encode_failure line) as [msg|]
    end; simpl; split; try done; try (by eexists);
    intros _; eexists; (split; [reflexivity|]); right; by eexists.
Qed.

(** X7. On a standard output that may refuse lines, the loop over [clubs]
    completes exactly when every entry it tries to match has a string as
    its name and a line that standard output accepts; when it does not
    complete, the exception raised is a [TypeError] or a
    [UnicodeEncodeError]. *)
Theorem assign_clubs_completes_iff_entries_pass
    (logos : list logo) (st : assign_state) (clubs : list club) :
  (Forall (λ c, passes logos c = true) clubs
   ↔ ∃ st', assign_clubs_console logos st clubs = Ok st')
  ∧ (∀ e, assign_clubs_console logos st clubs = Raise e →
          e = TypeError ∨ ∃ msg, e = UnicodeEncodeError msg).
Proof.
  unfold assign_clubs_console.
  revert st. induction clubs as [|c clubs IH]; intros st; simpl.
  - split; [|done]. split; [by eexists | constructor].
  - unfold mbind, result_bind, bind. fold (assign_club_console logos st c).
    destruct (assign_club_console_passes logos st c) as [Hok Hbad].
    destruct (passes logos c) eqn:Hc.
    + destruct (Hok eq_refl) as [st1 ->]. destruct (IH st1) as [IH1 IH2].
      split; [|exact IH2]. rewrite Forall_cons, IH1. split; [by intros [_ ?] | done].
    + destruct (Hbad eq_refl) as (e0 & -> & He0). split; [|by intros e [= <-]]. split.
      * intros H. apply Forall_cons in H as [H _]. congruence.
      * by intros [st' H].
Qed.

(** ** Further properties of the helpers of the scraper *)

(** X8. A club id holds no whitespace and no character other than word
    characters and the hyphen, and neither starts nor ends with an
    underscore. *)
Theorem slugify_is_an_identifier (name : str) :
  Forall (λ c, (unicode_word c || (c =? 45)) && negb (isspace c) = true) (slugify name)
  ∧ head (slugify name) ≠ Some underscore
  ∧ last (slugify name) ≠ Some underscore.
Proof.
  split.
  - unfold slugify. apply strip_by_Forall, sub_runs_Forall.
    + repeat constructor. unfold unicode_word. by rewrite N.eqb_refl, orb_true_r.
    + eapply Forall_impl; [apply filter_holds|]. intros c Hc Hs. simpl in Hc.
      rewrite Hs in *. simpl. rewrite andb_true_r.
      by rewrite orb_false_r in Hc.
  - split; intros H;
      [pose proof (strip_by_ends (N.eqb underscore) _ underscore (or_introl H)) as E
      |pose proof (strip_by_ends (N.eqb underscore) _ underscore (or_intror H)) as E];
      by rewrite N.eqb_refl in E.
Qed.

Lemma article_link_facts (href : str) :
  is_wiki_article_link href = true →
  startswith (lit "/wiki/") href = true
  ∧ contains (lit "redlink=1") href = false
  ∧ normalize_wiki_href href = urljoin WIKI href.
Proof.
  unfold is_wiki_article_link, normalize_wiki_href.
  destruct (nonempty href); cbn [negb]; [|done].
  destruct (startswith (lit "/wiki/") href) eqn:Hw; cbn [negb]; [|done].
  destruct (contains (lit "redlink=1") href); [done|].
  intros _. repeat split.
  apply startswith_spec in Hw as [post ->].
  by vm_compute.
Qed.

Lemma row_candidate_sound (team_idx : nat) (tr : node) (name url : str) :
  row_candidate team_idx tr = Some (name, url) →
  name ≠ [] ∧ ∃ href, is_wiki_article_link href = true ∧ url = urljoin WIKI href.
Proof.
  unfold row_candidate.
  destruct (_ !! team_idx) as [cell|]; [|done].
  destruct (find [lit "a"] _ cell) as [a|]; [|done].
  destruct (is_wiki_article_link _) eqn:Hlink; simpl; [|done].
  destruct (get_text [32] a) as [|c text] eqn:Hname; simpl; [done|].
  intros [= <- <-]. split; [done|]. eexists. split; [exact Hlink|].
  by apply article_link_facts.
Qed.

Lemma candidates_sound (soup : node) (name url : str) :
  (name, url) ∈ candidates soup →
  name ≠ [] ∧ ∃ href, is_wiki_article_link href = true ∧ url = urljoin WIKI href.
Proof.
  unfold candidates. intros H.
  apply list_elem_of_join in H as (cs & Hin & Hcs).
  apply list_elem_of_fmap in Hcs as (table & -> & _).
  unfold table_candidates in Hin.
  destruct (negb _ || _); [by apply elem_of_nil in Hin|].
  destruct (find [lit "tr"] any_node table); [|by apply elem_of_nil in Hin].
  destruct (find_index _ _) as [idx|]; [|by apply elem_of_nil in Hin].
  apply list_elem_of_omap in Hin as (tr & _ & Hrow).
  by eapply row_candidate_sound.
Qed.

(** X9. Every pair the extractor returns has a non-empty name, and its
    link is the join of the wiki base address with an href that passed
    the article-link test. *)
Theorem extracted_links_are_article_links (soup : node) (name url : str) :
  (name, url) ∈ extract_entity_links soup →
  name ≠ [] ∧ ∃ href, is_wiki_article_link href = true ∧ url = urljoin WIKI href.
Proof.
  intros H. apply candidates_sound with soup.
  unfold extract_entity_links, dedupe_by_url in H. rewrite dedupe_fold in H.
  eapply elem_of_sublist; [exact H | apply dedupe_from_sublist].
Qed.

Lemma ground_row_sound (rows : list node) (g : str) (link : option str) :
  ground_row rows = Some (g, link) →
  match link with
  | Some u => ∃ href, is_wiki_article_link href = true ∧ u = urljoin WIKI href
  | None => g ≠ []
  end.
Proof.
  induction rows as [|tr rows IH]; simpl; [done|].
  destruct (find [lit "th"] any_node tr) as [th|]; [|done].
  destruct (find [lit "td"] any_node tr) as [td|]; [|done].
  destruct (bool_decide _); [|done].
  assert ((let text := get_text [32] td in
           if nonempty text then Some (text, None) else ground_row rows) = Some (g, link) →
          match link with
          | Some u => ∃ href, is_wiki_article_link href = true ∧ u = urljoin WIKI href
          | None => g ≠ []
          end) as Hplain.
  { simpl. destruct (get_text [32] td) as [|c text]; simpl; [done|]. by intros [= <- <-]. }
  destruct (find [lit "a"] _ td) as [a|]; [|done].
  destruct (is_wiki_article_link _) eqn:Hlink; [|done].
  intros [= <- <-]. eexists. split; [exact Hlink|]. by apply article_link_facts.
Qed.

(** X10. When the Infobox Field Extractor returns a ground with a link,
    the link is the join of the wiki base address with an href that passed
    the article-link test; when it returns a ground without a link, the
    ground's text is not empty. *)
Theorem ground_link_is_article_link (club_url g : str) (link : option str) :
  find_home_ground_link club_url = Ok (Some (g, link)) →
  match link with
  | Some u => ∃ href, is_wiki_article_link href = true ∧ u = urljoin WIKI href
  | None => g ≠ []
  end.
Proof.
  unfold find_home_ground_link, http_get, mbind, result_bind, bind.
  destruct (http_fetch club_url) as [html|e]; [|done].
  destruct (find [lit "table"] _ (parse_html html)) as [infobox|]; [|done].
  intros [= H]. by eapply ground_row_sound.
Qed.

(** ** Further properties of the pipeline *)

Lemma str_leb_total (a b : str) : str_leb a b = true ∨ str_leb b a = true.
Proof.
  revert b. induction a as [|x a IH]; intros [|y b]; simpl; auto.
  destruct (N.ltb_spec x y); [by left|]. destruct (N.ltb_spec y x); [by right|].
  assert (x = y) as -> by lia. rewrite N.eqb_refl. simpl. apply IH.
Qed.

Lemma str_le_total : Total str_le.
Proof. intros a b. apply str_leb_total. Qed.

Lemma record_le_total : Total record_le.
Proof.
  intros a b. unfold record_le.
  destruct (decide (rec_country a = rec_country b)) as [Hc | Hc].
  - rewrite !bool_decide_eq_true_2 by done.
    destruct (Z.eqb_spec (rec_tier a) (rec_tier b)) as [Ht | Ht].
    + rewrite Ht, Z.eqb_refl. apply str_leb_total.
    + rewrite (proj2 (Z.eqb_neq _ _)) by lia.
      destruct (Z.ltb_spec (rec_tier a) (rec_tier b)); [by left|].
      right. apply Z.ltb_lt. lia.
  - rewrite !bool_decide_eq_false_2 by done. apply str_leb_total.
Qed.

(** X11. The list of aliases is in ascending order of its strings. *)
Theorem build_aliases_sorted (name : str) : Sorted str_le (build_aliases name).
Proof.
  unfold build_aliases, sorted_strs.
  apply (Sorted_merge_sort str_le (Total0 := str_le_total)).
Qed.

(** X12. The list [main] writes out is in ascending order of
    (country, tier, name) and holds exactly the values of [all_clubs]. *)
Theorem final_list_is_sorted_dict_values
    (leagues : list league_desc) (st st' : run_state) (final : list club_record) :
  main_on leagues st = (Ok final, st') →
  Sorted record_le final ∧ final ≡ₚ (map_to_list (all_clubs st')).*2.
Proof.
  unfold main_on, io_bind.
  destruct (for_each process_league leagues st) as [[[]|e] st1]; [|done].
  intros [= <- <-]. split.
  - apply (Sorted_merge_sort record_le (Total0 := record_le_total)).
  - apply merge_sort_Permutation.
Qed.

Lemma keyed_print (P : str → club_record → Prop) (line : str) :
  preserves (keyed_records P) (print line).
Proof. by intros st. Qed.

Lemma keyed_store (P : str → club_record → Prop) (id : str) (r : club_record) :
  P id r → preserves (keyed_records P) (store id r).
Proof.
  intros Hr st Hst id' r'. simpl. rewrite lookup_insert.
  destruct (decide (id = id')) as [<- | ?]; [by intros [= <-] | apply Hst].
Qed.

Lemma preserves_for_each_in {A} (I : run_state → Prop) (body : A → io unit) items :
  (∀ x, x ∈ items → preserves I (body x)) → preserves I (for_each body items).
Proof.
  induction items as [|x items IH]; intros Hbody; simpl.
  - apply preserves_ret.
  - apply preserves_bind; [apply Hbody, list_elem_of_here | intros _].
    apply IH. intros y Hy. by apply Hbody, list_elem_of_further.
Qed.

Lemma process_club_well_formed leagues lg link :
  lg ∈ leagues →
  preserves (keyed_records (well_formed_record leagues)) (process_club lg link).
Proof.
  intros Hlg. destruct link as [club_name club_url]. unfold process_club.
  apply preserves_catch; [|intros e; unfold club_handler; destruct e; apply keyed_print].
  unfold club_body. apply preserves_bind; [apply preserves_call|].
  intros [[ground_name ground_url]|]; [|apply keyed_print].
  apply preserves_bind_call. intros [[lat lon]|] Hc; [|apply keyed_print].
  apply preserves_bind; [|intros; apply keyed_print].
  apply keyed_store. unfold well_formed_record. simpl. repeat split.
  - destruct ground_url as [u|]; simpl in Hc; [|done].
    destruct (nonempty u) eqn:Hu; [|done]. by exists u.
  - by exists lg.
Qed.

Lemma process_league_well_formed leagues lg :
  lg ∈ leagues →
  preserves (keyed_records (well_formed_record leagues)) (process_league lg).
Proof.
  intros Hlg. unfold process_league. apply preserves_bind; [apply keyed_print|]. intros _.
  apply preserves_bind; [apply preserves_call|]. intros [|link links].
  - apply keyed_print.
  - apply preserves_bind; [apply keyed_print|]. intros _.
    apply preserves_for_each. intros x. by apply process_club_well_formed.
Qed.

Lemma fmap_snd_keys {A B} (f : B → A) (l : list (A * B)) :
  Forall (λ p, f p.2 = p.1) l → f <$> l.*2 = l.*1.
Proof. induction 1 as [|p l Hp _ IH]; [done|]. rewrite !fmap_cons. by f_equal. Qed.

(** X13. In the list a complete run writes out, no two records share an
    id, and every record is whole: its id is the slug of its name, its
    aliases are those of its name, it has a non-empty ground link, and its
    country, league code and tier are those of one of the leagues. *)
Theorem emitted_records_are_whole
    (leagues : list league_desc) (st' : run_state) (final : list club_record) :
  main_on leagues initial_state = (Ok final, st') →
  NoDup (rec_id <$> final)
  ∧ ∀ r, r ∈ final → well_formed_record leagues (rec_id r) r.
Proof.
  unfold main_on, io_bind. intros Hrun.
  pose proof (preserves_for_each_in (keyed_records (well_formed_record leagues))
                process_league leagues
                (λ lg Hlg, process_league_well_formed leagues lg Hlg) initial_state) as Hinv.
  destruct (for_each process_league leagues initial_state) as [[[]|e] st1]; [|done].
  injection Hrun as <- <-. simpl in Hinv.
  assert (keyed_records (well_formed_record leagues) st1) as Hwf.
  { apply Hinv. intros id r H. simpl in H. by rewrite lookup_empty in H. }
  split.
  - rewrite merge_sort_Permutation, fmap_snd_keys; [apply NoDup_fst_map_to_list|].
    apply Forall_forall. intros [id r] Hin. apply elem_of_map_to_list in Hin.
    by destruct (Hwf id r Hin).
  - intros r Hr. rewrite merge_sort_Permutation in Hr.
    apply list_elem_of_fmap in Hr as ([id r'] & -> & Hr).
    apply elem_of_map_to_list in Hr. simpl.
    pose proof (Hwf id r' Hr) as Hrec. destruct Hrec as (Hid & Hrest).
    rewrite Hid. by split.
Qed.

(** X14. A league page that was fetched but yields no candidate pair adds
    no record: two lines are printed (the league's heading and the notice
    that no club was found) and the run goes on with the next league. *)
Theorem league_without_links_is_passed_over
    (lg : league_desc) (rest : list league_desc) (st : run_state) (html : str) :
  http_fetch (league_url lg) = Ok html →
  candidates (parse_html html) = [] →
  ∃ heading notice,
    let st1 := logged (logged st heading) notice in
    process_league lg st = (Ok tt, st1)
    ∧ all_clubs st1 = all_clubs st
    ∧ for_each process_league (lg :: rest) st = for_each process_league rest st1.
Proof.
  intros Hfetch Hcands.
  assert (scrape_club_links_from_league (league_url lg) = Ok []) as Hscrape.
  { unfold scrape_club_links_from_league, http_get, extract_entity_links.
    rewrite Hfetch. simpl. by rewrite Hcands. }
  eexists _, _. cbn zeta.
  assert (process_league lg st
          = (Ok tt, logged (logged st ([10] ++ lit "Scraping " ++ league_name lg))
                      (lit "  !! No clubs found on this league page (table structure changed).")))
    as Hp.
  { unfold process_league, io_bind, call, print. simpl. by rewrite Hscrape. }
  split; [exact Hp|]. split; [done|].
  cbn [for_each]. unfold io_bind at 1. by rewrite Hp.
Qed.

(** X15. A failed fetch of a league page is not caught: [main] raises the
    same exception, the leagues that follow are not visited, no list is
    written out, and the dict of records is as it was before that
    league. *)
Theorem league_fetch_failure_aborts_run
    (lg : league_desc) (rest : list league_desc) (st : run_state) (e : exn) :
  http_fetch (league_url lg) = Raise e →
  ∃ st1, main_on (lg :: rest) st = (Raise e, st1) ∧ all_clubs st1 = all_clubs st.
Proof.
  intros Hfetch. eexists. unfold main_on. cbn [for_each].
  unfold io_bind, process_league, io_bind, call, print,
    scrape_club_links_from_league, http_get.
  rewrite Hfetch. simpl. split; reflexivity.
Qed.

(** A line printed inside the [try] and refused is caught by the second
    [except] clause, whose own line may be refused in turn; the dict of
    records is the same either way. *)
Lemma guarded_print_dict line club_name st :
  all_clubs (io_catch (print_console line)
               (club_handler_with print_console club_name) st).2 = all_clubs st.
Proof.
  unfold io_catch. destruct (print_console line st) as [[[]|e] st1] eqn:E.
  - rewrite <- (print_console_dict line st). by rewrite E.
  - unfold club_handler_with. rewrite print_console_dict.
    rewrite <- (print_console_dict line st). by rewrite E.
Qed.

Lemma guarded_print_accepted line club_name st :
  encode_failure line = None →
  io_catch (print_console line) (club_handler_with print_console club_name) st
  = (Ok tt, logged st line).
Proof. intros H. unfold io_catch. by rewrite print_console_accepted. Qed.

(** X16. A club without an infobox ground row, with a ground given as
    plain text only, or whose ground page yields no coordinates is
    dropped: the dict of records is as it was, and when standard output
    accepts the line that says so, handling the club returns normally
    with that one line printed. *)
Theorem club_without_ground_or_coordinates_is_dropped
    (lg : league_desc) (club_name club_url : str) (st : run_state) (line : str) :
  (find_home_ground_link club_url = Ok None ∧ line = line_no_ground club_name)
  ∨ (∃ g, find_home_ground_link club_url = Ok (Some (g, None))
          ∧ line = line_no_coords club_name g)
  ∨ (∃ g u, find_home_ground_link club_url = Ok (Some (g, Some u))
            ∧ extract_coords_from_wiki_page (Some u) = Ok None
            ∧ line = line_no_coords club_name g) →
  all_clubs (process_club_console lg (club_name, club_url) st).2 = all_clubs st
  ∧ (encode_failure line = None →
       process_club_console lg (club_name, club_url) st = (Ok tt, logged st line)).
Proof.
  intros Hcase.
  assert (process_club_console lg (club_name, club_url) st
          = io_catch (print_console line)
              (club_handler_with print_console club_name) st) as ->.
  { unfold process_club_console, process_club_with, io_catch, club_body_with,
      io_bind, call.
    destruct Hcase as [[H ->] | [(g & H & ->) | (g & u & H & Hc & ->)]]; rewrite H.
    - done.
    - done.
    - change (default [] (Some u)) with u. destruct (nonempty u); [by rewrite Hc|done]. }
  split; [apply guarded_print_dict|apply guarded_print_accepted].
Qed.

(** X17. A club whose ground link and coordinates resolve is stored under
    the slug of its name, replacing any record already stored under that
    key, and the records under every other key are as they were. The
    record is stored before its line is printed, so it is in the dict
    whether or not standard output accepts that line; when it does,
    handling the club returns normally with that one line printed. *)
Theorem resolved_club_is_stored
    (lg : league_desc) (club_name club_url g u : str) (lat lon : pyfloat)
    (st : run_state) :
  find_home_ground_link club_url = Ok (Some (g, Some u)) →
  nonempty u = true →
  extract_coords_from_wiki_page (Some u) = Ok (Some (lat, lon)) →
  let run := process_club_console lg (club_name, club_url) st in
  all_clubs run.2 !! slugify club_name
  = Some {| rec_id := slugify club_name;
            rec_name := club_name;
            rec_country := league_country lg;
            rec_league := league_code lg;
            rec_tier := league_tier lg;
            rec_lat := py_round lat 6;
            rec_lon := py_round lon 6;
            rec_ground := g;
            rec_aliases := build_aliases club_name;
            rec_wikipedia := club_url;
            rec_ground_wikipedia := Some u |}
  ∧ (∀ id, id ≠ slugify club_name → all_clubs run.2 !! id = all_clubs st !! id)
  ∧ (encode_failure (line_stored club_name g) = None →
       run.1 = Ok tt ∧ stdout run.2 = stdout st ++ [line_stored club_name g]).
Proof.
  intros Hg Hu Hc run.
  assert (∃ st2,
            run = io_catch (print_console (line_stored club_name g))
                    (club_handler_with print_console club_name) st2
            ∧ all_clubs st2 !! slugify club_name
              = Some {| rec_id := slugify club_name;
                        rec_name := club_name;
                        rec_country := league_country lg;
                        rec_league := league_code lg;
                        rec_tier := league_tier lg;
                        rec_lat := py_round lat 6;
                        rec_lon := py_round lon 6;
                        rec_ground := g;
                        rec_aliases := build_aliases club_name;
                        rec_wikipedia := club_url;
                        rec_ground_wikipedia := Some u |}
            ∧ (∀ id, id ≠ slugify club_name → all_clubs st2 !! id = all_clubs st !! id)
            ∧ stdout st2 = stdout st) as (st2 & -> & Hrec & Hrest & Hout).
  { eexists. split.
    - unfold run, process_club_console, process_club_with, io_catch, club_body_with,
        io_bind, call, store.
      rewrite Hg. change (default [] (Some u)) with u. rewrite Hu, Hc. reflexivity.
    - simpl. split; [apply lookup_insert_eq|]. split; [|done].
      intros id Hid. by rewrite lookup_insert_ne. }
  rewrite guarded_print_dict. split; [done|]. split; [done|].
  intros Hline. rewrite guarded_print_accepted by done. simpl. by rewrite Hout.
Qed.

Lemma length_split_on (sep : N) (s : str) :
  length (split_on sep s) = S (length (List.filter (λ c, c =? sep) s)).
Proof.
  induction s as [|c s IH]; simpl; [done|].
  destruct (c =? sep); simpl; [by rewrite IH|].
  destruct (split_on_cons sep s) as (w & ws & E). rewrite E in *. exact IH.
Qed.

(** X18. The text of a coordinate marker is parsed into a pair only when
    it holds exactly one semicolon and [float] accepts the trimmed text on
    each side of it; the pair is then the two values, latitude first. *)
Theorem parse_geo_needs_one_semicolon (geo : node) (lat lon : pyfloat) :
  parse_geo geo = Ok (lat, lon) →
  length (List.filter (λ c, c =? 59) (get_text [] geo)) = 1%nat
  ∧ ∃ a b, split_on 59 (get_text [] geo) = [a; b]
           ∧ py_float (strip a) = Ok lat ∧ py_float (strip b) = Ok lon.
Proof.
  unfold parse_geo. pose proof (length_split_on 59 (get_text [] geo)) as Hlen.
  destruct (split_on 59 (get_text [] geo)) as [|a [|b [|c rest]]]; try done.
  change (strip <$> [a; b]) with [strip a; strip b].
  unfold mbind, result_bind, bind, mret, result_ret.
  destruct (py_float (strip a)) as [x|] eqn:Ha; [|done].
  destruct (py_float (strip b)) as [y|] eqn:Hb; [|done].
  intros [= <- <-]. split; [simpl in Hlen; lia|]. by exists a, b.
Qed.

Lemma dedupe_from_distinct (seen : gset str) (l : list (str * str)) :
  NoDup l.*2 → (∀ u, u ∈ l.*2 → u ∉ seen) → dedupe_from seen l = l.
Proof.
  forget_libs.
  revert seen. induction l as [|c l IH]; intros seen Hnd Hseen; simpl; [done|].
  rewrite fmap_cons in Hnd, Hseen. apply NoDup_cons in Hnd as [Hc Hnd].
  rewrite bool_decide_eq_false_2 by (apply Hseen, list_elem_of_here).
  f_equal. apply IH; [done|]. intros u Hu.
  rewrite not_elem_of_union, not_elem_of_singleton. split.
  - by intros ->.
  - by apply Hseen, list_elem_of_further.
Qed.

(** X19. De-duplicating an already de-duplicated list of pairs changes
    nothing. *)
Theorem dedupe_by_url_idempotent (cands : list (str * str)) :
  dedupe_by_url (dedupe_by_url cands) = dedupe_by_url cands.
Proof.
  forget_libs.
  unfold dedupe_by_url. rewrite !dedupe_fold. simpl.
  apply dedupe_from_distinct; [apply dedupe_from_NoDup|].
  intros u _. apply not_elem_of_empty.
Qed.

(** X20. Normalising a text first does not change its tokens: the tokens
    of a logo's normalised stem are those of the file's stem. NFKD is
    only required to leave ASCII text unchanged. *)
Theorem tokens_of_normalised (text : str) :
  (∀ s, Forall (λ c, is_ascii c = true) s → nfkd s = s) →
  tokens (normalise text) = tokens text.
Proof.
  intros Hnfkd. unfold tokens. f_equal. f_equal.
  rewrite (normalise_of_slug (normalise text) Hnfkd (normalise_slug text)).
  unfold normalise. apply strip_by_idem.
Qed.

End Repo.

(** * The properties on explicit inputs *)

(** C7. The club names [ЦСКА] and [!!!] normalise to the empty string, and
    with the one logo [PL/arsenal.png] in the pool each of them is
    resolved to that logo, not to none. *)
Theorem empty_key_resolves_to_first_logo :
  let pool := [load_logo Sample.nfkd (lit "PL") (lit "arsenal.png") (lit "arsenal")] in
  normalise Sample.nfkd [0x426; 0x421; 0x41A; 0x410] = []
  ∧ resolve Sample.nfkd [0x426; 0x421; 0x41A; 0x410] (JStr (lit "PL")) pool
    = Some (load_logo Sample.nfkd (lit "PL") (lit "arsenal.png") (lit "arsenal"))
  ∧ normalise Sample.nfkd (lit "!!!") = []
  ∧ resolve Sample.nfkd (lit "!!!") (JStr (lit "PL")) pool
    = Some (load_logo Sample.nfkd (lit "PL") (lit "arsenal.png") (lit "arsenal")).
Proof. vm_compute. repeat split. Qed.

Lemma entry_without_name_or_league_is_skipped_witness :
  let st := {| clubs_out := []; matched := 0; missing := 0; printed := [] |} in
  let c : club := {[ lit "league" := JStr (lit "PL") ]} in
  assign_club Sample.nfkd [] st c = Ok (skipped st c).
Proof.
  intros st c.
  apply (entry_without_name_or_league_is_skipped Sample.nfkd [] st c).
  left. left. vm_compute. reflexivity.
Defined.

(** C4, as the specification states it, fails: the aliases of
    [Arsenal F.C.] are [af], [arsenal] and [arsenal fc], none of which is
    the normalised name [arsenal_fc]; and the name [.] has no alias. *)
Lemma build_aliases_lacks_normalised_name :
  ¬ (∀ name, build_aliases Sample.lower name ≠ []
             ∧ normalise Sample.nfkd name ∈ build_aliases Sample.lower name).
Proof.
  intros H. destruct (H (lit "Arsenal F.C.")) as [_ Hin].
  assert (bool_decide (normalise Sample.nfkd (lit "Arsenal F.C.")
                       ∈ build_aliases Sample.lower (lit "Arsenal F.C.")) = false)
    as Hn by (vm_compute; reflexivity).
  by apply bool_decide_eq_false in Hn.
Qed.

Lemma build_aliases_contains_trimmed_name_witness :
  lit "arsenal fc" ∈ build_aliases Sample.lower (lit "Arsenal F.C.")
  ∧ build_aliases Sample.lower (lit "Arsenal F.C.") ≠ [].
Proof.
  apply (build_aliases_contains_trimmed_name Sample.lower (lit "Arsenal F.C.")).
  vm_compute. discriminate.
Defined.

Lemma sample_nfkd_ascii (s : str) :
  Forall (λ c, is_ascii c = true) s → Sample.nfkd s = s.
Proof.
  unfold Sample.nfkd. induction 1 as [|c s Hc _ IH]; [done|].
  rewrite fmap_cons. simpl. rewrite IH.
  unfold is_ascii in Hc. apply N.ltb_lt in Hc.
  destruct (N.eqb_spec c 233); [lia|]. destruct (N.eqb_spec c 246); [lia|]. done.
Qed.

Lemma normalise_idempotent_total_witness :
  normalise Sample.nfkd (normalise Sample.nfkd (lit "?! ... _")) = normalise Sample.nfkd (lit "?! ... _")
  ∧ normalise Sample.nfkd (lit "?! ... _") = [].
Proof.
  destruct (normalise_idempotent_total Sample.nfkd (lit "?! ... _") sample_nfkd_ascii)
    as (Hidem & _ & Hpunct).
  split; [exact Hidem|]. apply Hpunct. vm_compute. repeat constructor.
Defined.

(** The tier order on the specification's example: the target [Arsenal]
    with the stems [arsenal_badge] and [arsenal_retro1] is settled by the
    containment tier, after the exact tier and before any later tier. *)
Example arsenal_matched_by_containment :
  let pool := [ load_logo Sample.nfkd (lit "PL") (lit "arsenal_badge.png") (lit "arsenal_badge");
                load_logo Sample.nfkd (lit "PL") (lit "arsenal_retro1.png") (lit "arsenal_retro1") ] in
  let st := match_club Sample.nfkd (lit "Arsenal") (JStr (lit "PL")) pool in
  logo_path <$> best st = Some (lit "club_logos_by_league/PL/arsenal_badge.png")
  ∧ attempted st = [Exact; Containment].
Proof. vm_compute. split; reflexivity. Qed.

(** The specification's example for the extractor: two tables that both
    link to [/wiki/Arsenal_F.C.] give one pair for that link, with the name
    of its first row. *)
Example arsenal_listed_once :
  extract_entity_links Sample.lower Sample.urljoin Sample.league_page
  = [ (lit "Arsenal F.C.", lit "https://en.wikipedia.org/wiki/Arsenal_F.C.");
      (lit "Chelsea F.C.", lit "https://en.wikipedia.org/wiki/Chelsea_F.C.") ].
Proof. vm_compute. reflexivity. Qed.

Lemma coordinates_parse_or_none_witness :
  extract_coords_from_wiki_page Sample.decimal Sample.fetch
    (Sample.parse "51.508; -0.262") (Some Sample.ground_url)
  = Ok (Some (PyFinite 51508 (-3), PyFinite (-262) (-3))).
Proof.
  assert (nonempty Sample.ground_url = true) as Hne by (vm_compute; reflexivity).
  assert (Sample.fetch Sample.ground_url = Ok (lit "ground")) as Hfetch
    by (vm_compute; reflexivity).
  destruct (coordinates_parse_or_none Sample.decimal Sample.fetch
              (Sample.parse "51.508; -0.262") Sample.ground_url (lit "ground")
              Hne Hfetch) as (Hparse & _).
  eapply Hparse; vm_compute; reflexivity.
Defined.

(** The first league of [LEAGUES]. *)
Example premier_league_first : head LEAGUES =
  Some {| league_name := lit "Premier League"; league_country := lit "ENG";
          league_code := lit "PL"; league_tier := 1;
          league_url := Sample.league_url |}.
Proof. vm_compute. reflexivity. Qed.

(** C9, as the specification states it, fails: with the marker text
    [123.0; 500.0] on the ground page, which parses as two decimal
    numbers, the run emits a record for Arsenal with latitude 123 and
    longitude 500. *)
Lemma record_outside_geographic_range :
  ¬ (∀ leagues final st' r,
       main_on Sample.lower Sample.isalnum Sample.decimal Sample.urljoin
               Sample.fetch (Sample.parse "123.0; 500.0") leagues initial_state
       = (Ok final, st') →
       r ∈ final → geographic r = true).
Proof.
  intros H.
  destruct (main_on Sample.lower Sample.isalnum Sample.decimal Sample.urljoin
              Sample.fetch (Sample.parse "123.0; 500.0") (take 1 LEAGUES) initial_state)
    as [[final|e] st'] eqn:Hrun; [|vm_compute in Hrun; discriminate].
  assert (∃ r, final = [r] ∧ geographic r = false) as (r & -> & Hr).
  { vm_compute in Hrun. injection Hrun as <- _. eexists. split; [reflexivity|].
    vm_compute. reflexivity. }
  specialize (H _ _ _ r Hrun (list_elem_of_here _ _)). congruence.
Qed.

Lemma records_carry_marker_coordinates_witness :
  from_marker Sample.decimal Sample.fetch (Sample.parse "51.5555555; 2.5e-6")
    (Sample.arsenal_record_at (PyFinite 51555555 (-6)) (PyFinite 3 (-6))).
Proof.
  apply (records_carry_marker_coordinates Sample.lower Sample.isalnum Sample.decimal
           Sample.urljoin Sample.fetch (Sample.parse "51.5555555; 2.5e-6")
           (take 1 LEAGUES)
           [Sample.arsenal_record_at (PyFinite 51555555 (-6)) (PyFinite 3 (-6))]
           (main_on Sample.lower Sample.isalnum Sample.decimal Sample.urljoin
              Sample.fetch (Sample.parse "51.5555555; 2.5e-6") (take 1 LEAGUES)
              initial_state).2).
  - vm_compute. reflexivity.
  - apply list_elem_of_here.
Defined.

(** C2, as the specification states it, fails: on a standard output
    limited to ASCII the 404 answer for Chelsea's page is caught, but the
    line that reports it holds the code point U+2717 and is refused, so
    the loop over the league's clubs raises [UnicodeEncodeError]. *)
Lemma club_failure_escapes_on_ascii_stdout :
  ¬ (∀ lg club_name club_url rest st e,
       Sample.fetch club_url = Raise e →
       ∃ st',
         for_each (process_club_console Sample.lower Sample.isalnum Sample.decimal
                     Sample.urljoin Sample.fetch (Sample.parse "51.555; -0.108")
                     Sample.ascii_stdout lg)
           ((club_name, club_url) :: rest) st
         = (Ok tt, st')).
Proof.
  intros H.
  destruct (H Sample.premier_league (lit "Chelsea F.C.") Sample.chelsea_url []
              initial_state (HTTPError (lit "404 Client Error")))
    as [st' Hrun]; [vm_compute; reflexivity|].
  vm_compute in Hrun. discriminate.
Qed.

Lemma club_failure_is_isolated_witness :
  process_club_console Sample.lower Sample.isalnum Sample.decimal Sample.urljoin
    Sample.fetch (Sample.parse "51.555; -0.108") Sample.utf8_stdout
    Sample.premier_league (lit "Chelsea F.C.", Sample.chelsea_url) initial_state
  = (Ok tt, logged initial_state
              (line_failure (lit "Chelsea F.C.") (HTTPError (lit "404 Client Error")))).
Proof.
  destruct (club_failure_is_isolated Sample.lower Sample.isalnum Sample.decimal
              Sample.urljoin Sample.fetch (Sample.parse "51.555; -0.108")
              Sample.utf8_stdout Sample.premier_league
              (lit "Chelsea F.C.") Sample.chelsea_url
              [] initial_state (HTTPError (lit "404 Client Error")))
    as (_ & Hline & _).
  - left. vm_compute. reflexivity.
  - apply Hline. vm_compute. reflexivity.
Defined.

(** A name holding a lone surrogate is a string, yet a standard output
    encoded as UTF-8 refuses its line: the loop over [clubs] stops at that
    entry with [UnicodeEncodeError]. *)
Example surrogate_name_stops_matcher :
  let st := {| clubs_out := []; matched := 0; missing := 0; printed := [] |} in
  let c : club := {[ lit "name" := JStr [0xD800; 120];
                     lit "league" := JStr (lit "PL") ]} in
  passes Sample.nfkd Sample.utf8_stdout [] c = false
  ∧ assign_clubs_console Sample.nfkd Sample.utf8_stdout [] st [c]
    = Raise (UnicodeEncodeError
               (lit "'utf-8' codec can't encode character: surrogates not allowed")).
Proof. vm_compute. split; reflexivity. Qed.

(** The specification's end-to-end example: one standings row for Arsenal,
    an infobox with a linked ground and the marker [51.555; -0.108] give
    exactly one record; Chelsea, whose page answers 404, is dropped and
    the run completes. *)
Example end_to_end_arsenal :
  let run := main_on Sample.lower Sample.isalnum Sample.decimal Sample.urljoin
               Sample.fetch (Sample.parse "51.555; -0.108") (take 1 LEAGUES)
               initial_state in
  run.1 = Ok [Sample.arsenal_record] ∧ length (stdout run.2) = 4%nat.
Proof. vm_compute. split; reflexivity. Qed.

(** ** The further properties on explicit inputs *)

Lemma tokens_are_words_witness :
  lit "arsenal" ≠ [] ∧ (lit "arsenal" ∉ STOPWORDS)
  ∧ Forall (λ c, is_lower c || is_digit c = true) (lit "arsenal").
Proof.
  apply (tokens_are_words Sample.nfkd (lit "Arsenal F.C.") (lit "arsenal")).
  vm_compute. apply list_elem_of_here.
Defined.

Lemma resolve_in_pool_and_league_witness :
  let l := load_logo Sample.nfkd (lit "PL") (lit "arsenal.png") (lit "arsenal") in
  l ∈ [l] ∧ same_league (JStr (lit "PL")) l = true.
Proof.
  intros l.
  apply (resolve_in_pool_and_league Sample.nfkd (lit "Arsenal F.C.") (JStr (lit "PL")) [l] l).
  vm_compute. reflexivity.
Defined.

Lemma resolve_none_without_league_logo_witness :
  resolve Sample.nfkd (lit "Arsenal") (JStr (lit "PL"))
    [load_logo Sample.nfkd (lit "CH") (lit "arsenal.png") (lit "arsenal")] = None.
Proof.
  apply (resolve_none_without_league_logo Sample.nfkd).
  intros l Hl. apply list_elem_of_singleton in Hl. subst l. vm_compute. reflexivity.
Defined.

Lemma stop_word_name_uses_two_tiers_witness :
  let pool := [load_logo Sample.nfkd (lit "PL") (lit "fc_united_badge.png")
                 (lit "fc_united_badge")] in
  resolve Sample.nfkd (lit "F.C. United") (JStr (lit "PL")) pool
  = match spec_tier Sample.nfkd Exact (lit "F.C. United") (JStr (lit "PL")) pool with
    | Some l => Some l
    | None => spec_tier Sample.nfkd Containment (lit "F.C. United") (JStr (lit "PL")) pool
    end.
Proof.
  intros pool. apply (stop_word_name_uses_two_tiers Sample.nfkd).
  vm_compute. reflexivity.
Defined.

Lemma assign_clubs_accounts_for_every_entry_witness :
  let pool := [load_logo Sample.nfkd (lit "PL") (lit "arsenal.png") (lit "arsenal")] in
  let clubs : list club :=
    [ {[ lit "name" := JStr (lit "Arsenal"); lit "league" := JStr (lit "PL") ]};
      {[ lit "league" := JStr (lit "PL") ]};
      {[ lit "name" := JStr (lit "Everton"); lit "league" := JStr (lit "PL") ]} ] in
  let st := {| clubs_out := []; matched := 0; missing := 0; printed := [] |} in
  ∃ st' outs,
    assign_clubs Sample.nfkd pool st clubs = Ok st'
    ∧ clubs_out st' = outs
    ∧ Forall2 (written_back pool) clubs outs
    ∧ (matched st' + missing st' = 2)%nat.
Proof.
  intros pool clubs st.
  destruct (assign_clubs Sample.nfkd pool st clubs) as [st'|e] eqn:Hrun;
    [|vm_compute in Hrun; discriminate].
  destruct (assign_clubs_accounts_for_every_entry Sample.nfkd pool st st' clubs Hrun)
    as (outs & Hout & Hall & Hn).
  exists st', outs. repeat split; done.
Defined.

Lemma extracted_links_are_article_links_witness :
  lit "Arsenal F.C." ≠ []
  ∧ ∃ href, is_wiki_article_link href = true
            ∧ lit "https://en.wikipedia.org/wiki/Arsenal_F.C."
              = Sample.urljoin WIKI href.
Proof.
  apply (extracted_links_are_article_links Sample.lower Sample.urljoin
           Sample.league_page).
  vm_compute. apply list_elem_of_here.
Defined.

Lemma ground_link_is_article_link_witness :
  ∃ href, is_wiki_article_link href = true
          ∧ Sample.ground_url = Sample.urljoin WIKI href.
Proof.
  apply (ground_link_is_article_link Sample.lower Sample.urljoin Sample.fetch
           (Sample.parse "51.555; -0.108") Sample.club_url
           (lit "Emirates Stadium") (Some Sample.ground_url)).
  vm_compute. reflexivity.
Defined.

Lemma final_list_is_sorted_dict_values_witness :
  Sorted record_le [Sample.arsenal_record].
Proof.
  apply (final_list_is_sorted_dict_values Sample.lower Sample.isalnum Sample.decimal
           Sample.urljoin Sample.fetch (Sample.parse "51.555; -0.108")
           (take 1 LEAGUES) initial_state
           (main_on Sample.lower Sample.isalnum Sample.decimal Sample.urljoin
              Sample.fetch (Sample.parse "51.555; -0.108") (take 1 LEAGUES)
              initial_state).2
           [Sample.arsenal_record]).
  vm_compute. reflexivity.
Defined.

Lemma emitted_records_are_whole_witness :
  NoDup (rec_id <$> [Sample.arsenal_record]).
Proof.
  apply (emitted_records_are_whole Sample.lower Sample.isalnum Sample.decimal
           Sample.urljoin Sample.fetch (Sample.parse "51.555; -0.108")
           (take 1 LEAGUES)
           (main_on Sample.lower Sample.isalnum Sample.decimal Sample.urljoin
              Sample.fetch (Sample.parse "51.555; -0.108") (take 1 LEAGUES)
              initial_state).2
           [Sample.arsenal_record]).
  vm_compute. reflexivity.
Defined.

Lemma league_without_links_is_passed_over_witness :
  let lg := {| league_name := lit "No table"; league_country := lit "ENG";
               league_code := lit "NT"; league_tier := 9;
               league_url := Sample.club_url |} in
  ∃ st1,
    process_league Sample.lower Sample.isalnum Sample.decimal Sample.urljoin
      Sample.fetch (Sample.parse "51.555; -0.108") lg initial_state = (Ok tt, st1)
    ∧ all_clubs st1 = all_clubs initial_state.
Proof.
  intros lg.
  destruct (league_without_links_is_passed_over Sample.lower Sample.isalnum
              Sample.decimal Sample.urljoin Sample.fetch
              (Sample.parse "51.555; -0.108") lg [] initial_state (lit "club"))
    as (heading & notice & Hp & Hsame & _).
  - vm_compute. reflexivity.
  - vm_compute. reflexivity.
  - eexists. split; [exact Hp | exact Hsame].
Defined.

Lemma league_fetch_failure_aborts_run_witness :
  let lg := {| league_name := lit "Nowhere"; league_country := lit "ENG";
               league_code := lit "NW"; league_tier := 9;
               league_url := lit "https://en.wikipedia.org/wiki/Nowhere" |} in
  ∃ st1,
    main_on Sample.lower Sample.isalnum Sample.decimal Sample.urljoin
      Sample.fetch (Sample.parse "51.555; -0.108") (lg :: LEAGUES) initial_state
    = (Raise (HTTPError (lit "404 Client Error")), st1)
    ∧ all_clubs st1 = all_clubs initial_state.
Proof.
  intros lg.
  apply (league_fetch_failure_aborts_run Sample.lower Sample.isalnum Sample.decimal
           Sample.urljoin Sample.fetch (Sample.parse "51.555; -0.108") lg LEAGUES
           initial_state).
  vm_compute. reflexivity.
Defined.

Lemma club_without_ground_or_coordinates_is_dropped_witness :
  process_club_console Sample.lower Sample.isalnum Sample.decimal Sample.urljoin
    Sample.fetch (Sample.parse "51.555; -0.108") Sample.utf8_stdout
    Sample.premier_league (lit "No infobox", Sample.league_url) initial_state
  = (Ok tt, logged initial_state (line_no_ground (lit "No infobox"))).
Proof.
  apply (club_without_ground_or_coordinates_is_dropped Sample.lower Sample.isalnum
           Sample.decimal Sample.urljoin Sample.fetch (Sample.parse "51.555; -0.108")
           Sample.utf8_stdout Sample.premier_league (lit "No infobox")
           Sample.league_url initial_state (line_no_ground (lit "No infobox"))).
  - left. split; vm_compute; reflexivity.
  - vm_compute. reflexivity.
Defined.

Lemma resolved_club_is_stored_witness :
  let run := process_club_console Sample.lower Sample.isalnum Sample.decimal
               Sample.urljoin Sample.fetch (Sample.parse "51.5555555; 2.5e-6")
               Sample.utf8_stdout Sample.premier_league
               (lit "Arsenal F.C.", Sample.club_url) initial_state in
  all_clubs run.2 !! lit "arsenal_fc"
  = Some (Sample.arsenal_record_at (PyFinite 51555555 (-6)) (PyFinite 3 (-6)))
  ∧ run.1 = Ok tt
  ∧ stdout run.2 = [line_stored (lit "Arsenal F.C.") (lit "Emirates Stadium")].
Proof.
  destruct (resolved_club_is_stored Sample.lower Sample.isalnum Sample.decimal
              Sample.urljoin Sample.fetch (Sample.parse "51.5555555; 2.5e-6")
              Sample.utf8_stdout Sample.premier_league
              (lit "Arsenal F.C.") Sample.club_url (lit "Emirates Stadium")
              Sample.ground_url (PyFinite 515555555 (-7)) (PyFinite 25 (-7))
              initial_state)
    as (Hrec & _ & Hline).
  - vm_compute. reflexivity.
  - vm_compute. reflexivity.
  - vm_compute. reflexivity.
  - split; [exact Hrec|]. apply Hline. vm_compute. reflexivity.
Defined.

Lemma parse_geo_needs_one_semicolon_witness :
  length (List.filter (λ c, c =? 59) (lit "51.555; -0.108")) = 1%nat.
Proof.
  destruct (parse_geo_needs_one_semicolon Sample.decimal
              (Elem (lit "span") [(lit "class", lit "geo")] [Text (lit "51.555; -0.108")])
              (PyFinite 51555 (-3)) (PyFinite (-108) (-3))) as [Hone _].
  - vm_compute. reflexivity.
  - exact Hone.
Defined.

Lemma tokens_of_normalised_witness :
  tokens Sample.nfkd (normalise Sample.nfkd (lit "Arsenal F.C. Women"))
  = tokens Sample.nfkd (lit "Arsenal F.C. Women").
Proof.
  apply (tokens_of_normalised Sample.nfkd (lit "Arsenal F.C. Women") sample_nfkd_ascii).
Defined.
